(** * QR restaurant ordering API: a shallow embedding of [main.py] and [schemas.py]

    The handlers of [main.py] are translated one by one into functions over an
    explicit document store.  The layers are

    - Python values and the few string operations the code uses;
    - [ObjectId] and [PyObjectId.validate];
    - the document store behind [db] (collections of documents in insertion
      order, identifiers handed out on insert);
    - the pydantic models of [schemas.py] with their [Field] constraints and
      [model_dump];
    - a state-and-exception monad in which the handlers are written;
    - the handlers, the request dispatcher and the store invariants;
    - the properties of the specification.

    What is kept abstract: request bodies arrive JSON-decoded and with the
    right field types (only the [Field] constraints of the schemas are
    checked here); the syntax checks of [HttpUrl] and [EmailStr] are not
    modelled; the store keeps values as they are given to it, whatever
    their size.  The diagnostic route [/test] and the CORS middleware are
    left out: they neither read nor write documents. *)

From Stdlib Require Import ZArith NArith String Ascii PrimFloat Lia.
From stdpp Require Import gmap strings list fin_maps sorting.

#[local] Set Warnings "-register-all".
#[local] Open Scope string_scope.
#[local] Open Scope Z_scope.

(** ** Python values *)

(** [ObjectId]: the 12 bytes of a BSON identifier, read as a big-endian
    number.  [str] of an identifier is its 24 hexadecimal digits. *)
Definition ObjectId := N.

(** The values a document field or a JSON response can hold.  [VUrl] is a
    pydantic [Url] object (what [model_dump] yields for an [HttpUrl]),
    [VDatetime] a [datetime] in milliseconds. *)
Inductive value : Type :=
  | VNull
  | VBool (b : bool)
  | VInt (z : Z)
  | VFloat (f : float)
  | VStr (s : string)
  | VUrl (u : string)
  | VDatetime (t : Z)
  | VList (l : list value)
  | VDict (d : gmap string value).

(** A Python [dict] with string keys. *)
Abbreviation dict := (gmap string value).

Definition of_option {A} (f : A -> value) (o : option A) : value :=
  match o with
  | Some a => f a
  | None => VNull
  end.

(** *** Strings *)

(** [s.replace(old, new)] for a non-empty [old]: every occurrence of [old],
    found from left to right without overlap, becomes [new].  [skip] counts
    the characters of a matched occurrence still to be dropped. *)
Fixpoint replace_from (skip : nat) (old new s : string) : string :=
  match s with
  | EmptyString => EmptyString
  | String c s' =>
      match skip with
      | S k => replace_from k old new s'
      | O =>
          if String.prefix old s
          then new +:+ replace_from (Nat.pred (String.length old)) old new s'
          else String c (replace_from 0 old new s')
      end
  end.

Definition str_replace (s old new : string) : string := replace_from 0 old new s.

(** Truth value of an [Optional[str]]: [None] and the empty string are falsy. *)
Definition truthy (o : option string) : bool :=
  match o with
  | Some (String _ _) => true
  | _ => false
  end.

(** [os.getenv(key, default)] over the process environment. *)
Definition environ := gmap string string.

Definition getenv (env : environ) (key default_ : string) : string :=
  match env !! key with
  | Some v => v
  | None => default_
  end.

(** *** Hexadecimal identifiers *)

Definition hex_char (n : N) : ascii :=
  match n with
  | 0%N => "0" | 1%N => "1" | 2%N => "2" | 3%N => "3"
  | 4%N => "4" | 5%N => "5" | 6%N => "6" | 7%N => "7"
  | 8%N => "8" | 9%N => "9" | 10%N => "a" | 11%N => "b"
  | 12%N => "c" | 13%N => "d" | 14%N => "e" | _ => "f"
  end%char.

Definition hex_value (c : ascii) : option N :=
  let n := N_of_ascii c in
  if ((48 <=? n) && (n <=? 57))%N then Some (n - 48)%N
  else if ((97 <=? n) && (n <=? 102))%N then Some (n - 87)%N
  else if ((65 <=? n) && (n <=? 70))%N then Some (n - 55)%N
  else None.

(** The [k] low hexadecimal digits of [n], most significant first. *)
Fixpoint hex_digits (k : nat) (n : N) : string :=
  match k with
  | O => EmptyString
  | S k' => hex_digits k' (n / 16)%N +:+ String (hex_char (n mod 16)%N) EmptyString
  end.

(** [str(oid)] *)
Definition ObjectId_str (o : ObjectId) : string := hex_digits 24 o.

Fixpoint hex_parse (acc : N) (s : string) : option N :=
  match s with
  | EmptyString => Some acc
  | String c s' =>
      match hex_value c with
      | Some d => hex_parse (16 * acc + d)%N s'
      | None => None
      end
  end.

(** [ObjectId.is_valid(v)] for a string: 24 hexadecimal digits. *)
Definition ObjectId_is_valid (v : string) : bool :=
  (String.length v =? 24)%nat && bool_decide (is_Some (hex_parse 0 v)).

(** ** Exceptions and handler results *)

Inductive exn : Type :=
  | HTTPException (status_code : Z) (detail : string)
  | RequestValidationError
  | ValueError (msg : string)
  | KeyError (key : string)
  | TypeError.

Inductive result (A : Type) : Type :=
  | Ok (a : A)
  | Raise (e : exn).
Arguments Ok {A} a.
Arguments Raise {A} e.

(** The status line FastAPI answers with: an [HTTPException] carries its
    own code, a body that fails its schema is a 422, and any other
    exception that leaves a handler is an internal server error. *)
Definition status_of_exn (e : exn) : Z :=
  match e with
  | HTTPException c _ => c
  | RequestValidationError => 422
  | ValueError _ | KeyError _ | TypeError => 500
  end.

Definition status_of {A} (r : result A) : Z :=
  match r with
  | Ok _ => 200
  | Raise e => status_of_exn e
  end.

(** [PyObjectId.validate(v)] on the [str] a path parameter is. *)
Definition PyObjectId_validate (v : string) : result ObjectId :=
  if ObjectId_is_valid v
  then match hex_parse 0 v with
       | Some o => Ok o
       | None => Raise (ValueError "Invalid ObjectId")
       end
  else Raise (ValueError "Invalid ObjectId").

(** [require_admin(authorization)] under the environment [env]. *)
Definition require_admin (env : environ) (authorization : option string) : result bool :=
  let token :=
    if truthy authorization
    then (fun a => str_replace a "Bearer " "") <$> authorization
    else None in
  let admin_token := getenv env "ADMIN_TOKEN" "admin-demo-token" in
  if negb (bool_decide (token = Some admin_token))
  then Raise (HTTPException 401 "Unauthorized")
  else Ok true.

(** ** The document store

    [db] is the handle [database.py] exports, a database of the MongoDB
    driver.  The handlers only use [db[name]] with [find_one], [find],
    [sort], [limit], [insert_one], [update_one] and [delete_one]; these are
    given the meaning the driver documents for them, on one request at a
    time. *)

(** A stored document as the driver returns it.  The [_id] key is always
    present and always an [ObjectId] (every insert of [main.py] leaves it
    to the store to assign one), so it is kept apart from the other keys. *)
Record document : Type := { _id : ObjectId; fields : dict }.

(** A collection lists its documents in insertion order. *)
Definition collection := list document.

(** Modelled from the spec: the store behind [db] ([database.py] is
    missing).  "All entities are stored as independent documents in named
    collections"; "document identifiers are opaque, globally unique, and
    assigned by the storage layer on insert".  [next_id] is the next
    identifier to hand out; identifiers grow with insertion, which is what
    makes a sort on [_id] an insertion order. *)
Record database : Type := { colls : gmap string collection; next_id : ObjectId }.

Definition empty_db : database := {| colls := ∅; next_id := 0%N |}.

(** [db[name]]: a collection never written to is empty. *)
Definition coll (db : database) (name : string) : collection :=
  match colls db !! name with
  | Some c => c
  | None => []
  end.

Definition set_coll (db : database) (name : string) (c : collection) : database :=
  {| colls := <[name := c]> (colls db); next_id := next_id db |}.

(** The three shapes of filter [main.py] writes: [{}], [{"_id": oid}] and
    [{key: s}] for a string [s]. *)
Inductive query : Type :=
  | Q_all
  | Q_id (oid : ObjectId)
  | Q_field (key : string) (s : string).

(** Equality match of a field against a string: the field is that string,
    or an array that holds it. *)
Definition value_is_str (s : string) (v : value) : bool :=
  match v with
  | VStr t => bool_decide (t = s)
  | _ => false
  end.

Definition value_matches_str (s : string) (v : value) : bool :=
  match v with
  | VList l => existsb (value_is_str s) l
  | _ => value_is_str s v
  end.

Definition matches (q : query) (d : document) : bool :=
  match q with
  | Q_all => true
  | Q_id oid => bool_decide (_id d = oid)
  | Q_field key s =>
      match fields d !! key with
      | Some v => value_matches_str s v
      | None => false
      end
  end.

(** [$set]: the given keys are overwritten, the others kept. *)
Definition apply_set (upd : dict) (d : document) : document :=
  {| _id := _id d; fields := upd ∪ fields d |}.

(** The first document that matches is rewritten, the rest is untouched;
    [None] when no document matches. *)
Fixpoint update_first (q : query) (upd : dict) (c : collection) : option collection :=
  match c with
  | [] => None
  | d :: c' =>
      if matches q d then Some (apply_set upd d :: c')
      else match update_first q upd c' with
           | Some c'' => Some (d :: c'')
           | None => None
           end
  end.

(** The first document that matches is removed; [None] when there is none. *)
Fixpoint delete_first (q : query) (c : collection) : option collection :=
  match c with
  | [] => None
  | d :: c' =>
      if matches q d then Some c'
      else match delete_first q c' with
           | Some c'' => Some (d :: c'')
           | None => None
           end
  end.

(** Sorting, by insertion (stable).  [le x y] says that [x] may stand before
    [y]. *)
Fixpoint insert_sorted {A} (le : A -> A -> bool) (x : A) (l : list A) : list A :=
  match l with
  | [] => [x]
  | y :: l' => if le x y then x :: y :: l' else y :: insert_sorted le x l'
  end.

Definition sort_by {A} (le : A -> A -> bool) (l : list A) : list A :=
  foldr (insert_sorted le) [] l.

(** A sort specification: [("title", 1)] or [("_id", -1)]. *)
Inductive sort_spec : Type :=
  | By_title_asc
  | By_id_desc.

(** The sort key of [sort("title", 1)]: a missing or non-string title sorts
    first, strings sort by their characters. *)
Definition title_key (d : document) : option string :=
  match fields d !! "title" with
  | Some (VStr s) => Some s
  | _ => None
  end.

Definition title_le (x y : document) : bool :=
  match title_key x, title_key y with
  | None, _ => true
  | Some _, None => false
  | Some s, Some t => String.leb s t
  end.

Definition id_ge (x y : document) : bool := (_id y <=? _id x)%N.

Definition cursor_sort (o : sort_spec) (c : list document) : list document :=
  match o with
  | By_title_asc => sort_by title_le c
  | By_id_desc => sort_by id_ge c
  end.

(** [cursor.limit(n)]: a limit of 0 is no limit; a negative limit asks for
    [|n|] documents in a single batch (the size of a batch is not modelled). *)
Definition cursor_limit (n : Z) (c : list document) : list document :=
  if n =? 0 then c else take (Z.abs_nat n) c.

(** [{"status": 1}] as a projection: [_id] and the listed keys. *)
Definition project (keys : list string) (d : document) : document :=
  {| _id := _id d;
     fields := filter (fun kv => kv.1 ∈ keys) (fields d) |}.

(** ** The handler monad: the store is threaded, an exception ends the request *)

Definition M (A : Type) : Type := database -> result A * database.

Definition ret {A} (a : A) : M A := fun db => (Ok a, db).

Definition raise {A} (e : exn) : M A := fun db => (Raise e, db).

Definition bind {A B} (m : M A) (k : A -> M B) : M B :=
  fun db =>
    match m db with
    | (Ok a, db') => k a db'
    | (Raise e, db') => (Raise e, db')
    end.

Notation "'let*' x ':=' m 'in' k" := (bind m (fun x => k))
  (at level 10, x name, m at level 100, k at level 200).

(** A pure computation that may raise. *)
Definition lift {A} (r : result A) : M A := fun db => (r, db).

(** [Depends(dep)]: FastAPI runs the dependencies of a route before it
    validates the body and calls the handler. *)
Definition Depends {A} (dep : result A) : M A := lift dep.

(** The body is checked against its schema before the handler runs. *)
Definition validated (ok : bool) : M unit :=
  if ok then ret tt else raise RequestValidationError.

Definition find_one (name : string) (q : query) : M (option document) :=
  fun db => (Ok (List.find (matches q) (coll db name)), db).

Definition find_one_projected (name : string) (q : query) (keys : list string)
  : M (option document) :=
  fun db => (Ok (project keys <$> List.find (matches q) (coll db name)), db).

Definition find (name : string) (q : query) : M (list document) :=
  fun db => (Ok (List.filter (matches q) (coll db name)), db).

(** [insert_one(doc).inserted_id] *)
Definition insert_one (name : string) (doc : dict) : M ObjectId :=
  fun db =>
    (Ok (next_id db),
     {| colls := <[name := (coll db name ++ [{| _id := next_id db; fields := doc |}])%list]> (colls db);
        next_id := N.succ (next_id db) |}).

Definition update_one (name : string) (q : query) (upd : dict) : M unit :=
  fun db =>
    match update_first q upd (coll db name) with
    | Some c => (Ok tt, set_coll db name c)
    | None => (Ok tt, db)
    end.

(** [delete_one(q).deleted_count] *)
Definition delete_one (name : string) (q : query) : M nat :=
  fun db =>
    match delete_first q (coll db name) with
    | Some c => (Ok 1%nat, set_coll db name c)
    | None => (Ok 0%nat, db)
    end.

(** ** The schemas of [schemas.py] *)

Definition VOptStr (o : option string) : value := of_option VStr o.

Module MenuItem.
Record t : Type := {
  title : string;
  description : option string;
  price : float;
  category : string;
  image_url : option string;
  is_available : bool }.

Definition categories : list string := ["Drinks"; "Desserts"; "Meals"].

Definition validate (m : t) : bool :=
  (0 <=? price m)%float && bool_decide (category m ∈ categories).

Definition model_dump (m : t) : dict :=
  list_to_map
    [("title", VStr (title m));
     ("description", VOptStr (description m));
     ("price", VFloat (price m));
     ("category", VStr (category m));
     ("image_url", of_option VUrl (image_url m));
     ("is_available", VBool (is_available m))].
End MenuItem.

Module OrderItem.
Record t : Type := {
  item_id : string;
  title : string;
  quantity : Z;
  unit_price : float;
  notes : option string }.

Definition validate (i : t) : bool :=
  (1 <=? quantity i) && (0 <=? unit_price i)%float.

Definition model_dump (i : t) : dict :=
  list_to_map
    [("item_id", VStr (item_id i));
     ("title", VStr (title i));
     ("quantity", VInt (quantity i));
     ("unit_price", VFloat (unit_price i));
     ("notes", VOptStr (notes i))].
End OrderItem.

Module Order.
Record t : Type := {
  customer_name : option string;
  table_number : option string;
  items : list OrderItem.t;
  total_amount : float;
  status : string;
  payment_status : string;
  created_at : option Z }.

Definition statuses : list string := ["Pending"; "Ready"; "Completed"; "Canceled"].
Definition payment_statuses : list string := ["Unpaid"; "Paid"; "Refunded"].

Definition validate (o : t) : bool :=
  forallb OrderItem.validate (items o)
  && (0 <=? total_amount o)%float
  && bool_decide (status o ∈ statuses)
  && bool_decide (payment_status o ∈ payment_statuses).

Definition model_dump (o : t) : dict :=
  list_to_map
    [("customer_name", VOptStr (customer_name o));
     ("table_number", VOptStr (table_number o));
     ("items", VList ((fun i => VDict (OrderItem.model_dump i)) <$> items o));
     ("total_amount", VFloat (total_amount o));
     ("status", VStr (status o));
     ("payment_status", VStr (payment_status o));
     ("created_at", of_option VDatetime (created_at o))].
End Order.

Module Review.
Record t : Type := {
  rating : Z;
  comment : option string;
  photo_url : option string;
  customer_name : option string;
  order_id : option string;
  created_at : option Z }.

Definition validate (r : t) : bool := (1 <=? rating r) && (rating r <=? 5).

Definition model_dump (r : t) : dict :=
  list_to_map
    [("rating", VInt (rating r));
     ("comment", VOptStr (comment r));
     ("photo_url", of_option VUrl (photo_url r));
     ("customer_name", VOptStr (customer_name r));
     ("order_id", VOptStr (order_id r));
     ("created_at", of_option VDatetime (created_at r))].
End Review.

Module RewardAccount.
Record t : Type := {
  customer_phone : string;
  points : Z;
  tier : string }.

Definition tiers : list string := ["Bronze"; "Silver"; "Gold"].

Definition validate (a : t) : bool :=
  (0 <=? points a) && bool_decide (tier a ∈ tiers).
End RewardAccount.

Module RestaurantSettings.
Record t : Type := {
  restaurant_name : string;
  logo_url : option string;
  primary_color : string;
  languages : list string;
  default_language : string;
  theme : string;
  currency : string;
  address : option string;
  contact_email : option string }.

Definition themes : list string := ["light"; "dark"; "system"].

Definition validate (r : t) : bool := bool_decide (theme r ∈ themes).

(** [RestaurantSettings()]: every field at its default. *)
Definition default : t := {|
  restaurant_name := "Your Restaurant";
  logo_url := None;
  primary_color := "#4f46e5";
  languages := ["en"; "ar"];
  default_language := "en";
  theme := "light";
  currency := "USD";
  address := None;
  contact_email := None |}.

Definition model_dump (r : t) : dict :=
  list_to_map
    [("restaurant_name", VStr (restaurant_name r));
     ("logo_url", of_option VUrl (logo_url r));
     ("primary_color", VStr (primary_color r));
     ("languages", VList (VStr <$> languages r));
     ("default_language", VStr (default_language r));
     ("theme", VStr (theme r));
     ("currency", VStr (currency r));
     ("address", VOptStr (address r));
     ("contact_email", VOptStr (contact_email r))].
End RestaurantSettings.

(** The request bodies declared in [main.py]. *)
Record AdminLogin : Type := { password : string }.
Record OrderStatusUpdate : Type := { status : string }.
Record RewardAdd : Type := { points : Z }.

(** ** The handlers of [main.py]

    A handler answers with a JSON value.  Its [Depends(require_admin)] and
    the validation of its body are written at the head of its definition, in
    the order FastAPI runs them. *)

(** [oid_str(doc)]: [None] is handed back as it is; otherwise the [_id] key
    is popped and its [str] stored under [id]. *)
Definition oid_str (doc : option document) : value :=
  match doc with
  | None => VNull
  | Some d => VDict (<["id" := VStr (ObjectId_str (_id d))]> (fields d))
  end.

Definition oid_str_all (docs : list document) : value :=
  VList ((fun d => oid_str (Some d)) <$> docs).

(** [{key: v} if v else {}] *)
Definition filter_query (key : string) (v : option string) : query :=
  match v with
  | Some s => if truthy v then Q_field key s else Q_all
  | None => Q_all
  end.

Definition root : M value :=
  ret (VDict {["message" := VStr "QR Ordering API running"]}).

Definition get_settings : M value :=
  let* doc := find_one "restaurantsettings" Q_all in
  match doc with
  | None =>
      let defaults := RestaurantSettings.model_dump RestaurantSettings.default in
      let defaults := <["_seed" := VBool true]> defaults in
      ret (VDict defaults)
  | Some _ => ret (oid_str doc)
  end.

Definition update_settings (env : environ) (authorization : option string)
    (payload : RestaurantSettings.t) : M value :=
  let* _ := Depends (require_admin env authorization) in
  let* _ := validated (RestaurantSettings.validate payload) in
  let data := RestaurantSettings.model_dump payload in
  let* existing := find_one "restaurantsettings" Q_all in
  let* doc :=
    match existing with
    | Some e =>
        let* _ := update_one "restaurantsettings" (Q_id (_id e)) data in
        find_one "restaurantsettings" (Q_id (_id e))
    | None =>
        let* _id := insert_one "restaurantsettings" data in
        find_one "restaurantsettings" (Q_id _id)
    end in
  ret (oid_str doc).

Definition admin_login (env : environ) (body : AdminLogin) : M value :=
  let admin_password := getenv env "ADMIN_PASSWORD" "admin123" in
  if negb (bool_decide (password body = admin_password))
  then raise (HTTPException 401 "Invalid credentials")
  else
    let token := getenv env "ADMIN_TOKEN" "admin-demo-token" in
    ret (VDict {["token" := VStr token]}).

Definition list_menu (category : option string) : M value :=
  let q := filter_query "category" category in
  let* items := find "menuitem" q in
  let items := cursor_sort By_title_asc items in
  ret (oid_str_all items).

Definition create_menu_item (env : environ) (authorization : option string)
    (item : MenuItem.t) : M value :=
  let* _ := Depends (require_admin env authorization) in
  let* _ := validated (MenuItem.validate item) in
  let* _id := insert_one "menuitem" (MenuItem.model_dump item) in
  let* doc := find_one "menuitem" (Q_id _id) in
  ret (oid_str doc).

Definition update_menu_item (env : environ) (authorization : option string)
    (item_id : string) (item : MenuItem.t) : M value :=
  let* _ := Depends (require_admin env authorization) in
  let* _ := validated (MenuItem.validate item) in
  let* oid := lift (PyObjectId_validate item_id) in
  let* _ := update_one "menuitem" (Q_id oid) (MenuItem.model_dump item) in
  let* doc := find_one "menuitem" (Q_id oid) in
  match doc with
  | None => raise (HTTPException 404 "Item not found")
  | Some _ => ret (oid_str doc)
  end.

Definition delete_menu_item (env : environ) (authorization : option string)
    (item_id : string) : M value :=
  let* _ := Depends (require_admin env authorization) in
  let* oid := lift (PyObjectId_validate item_id) in
  let* deleted_count := delete_one "menuitem" (Q_id oid) in
  if (deleted_count =? 0)%nat
  then raise (HTTPException 404 "Item not found")
  else ret (VDict {["ok" := VBool true]}).

Definition create_order (order : Order.t) : M value :=
  let* _ := validated (Order.validate order) in
  let data := Order.model_dump order in
  let* _id := insert_one "order" data in
  let* doc := find_one "order" (Q_id _id) in
  ret (oid_str doc).

Definition list_orders (env : environ) (authorization : option string)
    (status : option string) : M value :=
  let* _ := Depends (require_admin env authorization) in
  let q := filter_query "status" status in
  let* orders := find "order" q in
  let orders := cursor_sort By_id_desc orders in
  ret (oid_str_all orders).

Definition update_order_status (env : environ) (authorization : option string)
    (order_id : string) (body : OrderStatusUpdate) : M value :=
  let* _ := Depends (require_admin env authorization) in
  let* oid := lift (PyObjectId_validate order_id) in
  let* _ := update_one "order" (Q_id oid) {["status" := VStr (status body)]} in
  let* doc := find_one "order" (Q_id oid) in
  match doc with
  | None => raise (HTTPException 404 "Order not found")
  | Some _ => ret (oid_str doc)
  end.

Definition track_order (order_id : string) : M value :=
  let* oid := lift (PyObjectId_validate order_id) in
  let* doc := find_one_projected "order" (Q_id oid) ["status"] in
  match doc with
  | None => raise (HTTPException 404 "Order not found")
  | Some d =>
      match fields d !! "status" with
      | Some st =>
          ret (VDict (<["status" := st]> {["id" := VStr (ObjectId_str (_id d))]}))
      | None => raise (KeyError "status")
      end
  end.

Definition create_review (review : Review.t) : M value :=
  let* _ := validated (Review.validate review) in
  let* _id := insert_one "review" (Review.model_dump review) in
  let* doc := find_one "review" (Q_id _id) in
  ret (oid_str doc).

Definition list_reviews (limit : Z) : M value :=
  let* reviews := find "review" Q_all in
  let reviews := cursor_limit limit (cursor_sort By_id_desc reviews) in
  ret (oid_str_all reviews).

(** [{"customer_phone": phone, "points": 0, "tier": "Bronze"}] *)
Definition new_account (phone : string) : dict :=
  list_to_map
    [("customer_phone", VStr phone); ("points", VInt 0); ("tier", VStr "Bronze")].

Definition get_rewards (phone : string) : M value :=
  let* acc := find_one "rewardaccount" (Q_field "customer_phone" phone) in
  let* acc :=
    match acc with
    | Some a => ret a
    | None =>
        let acc := new_account phone in
        let* _id := insert_one "rewardaccount" acc in
        ret {| _id := _id; fields := acc |}
    end in
  ret (oid_str (Some acc)).

(** [acc.get("points", 0) + n].  A stored value that is no number makes the
    sum a [TypeError]; a stored float would make it a float, which is not
    modelled (no handler stores one under [points]). *)
Definition points_plus (acc : document) (n : Z) : result Z :=
  match fields acc !! "points" with
  | None => Ok (0 + n)
  | Some (VInt z) => Ok (z + n)
  | Some (VBool b) => Ok (Z.b2z b + n)
  | Some _ => Raise TypeError
  end.

Definition add_points (env : environ) (authorization : option string)
    (phone : string) (body : RewardAdd) : M value :=
  let* _ := Depends (require_admin env authorization) in
  let* acc := find_one "rewardaccount" (Q_field "customer_phone" phone) in
  let* acc :=
    match acc with
    | Some a => ret a
    | None =>
        let acc := new_account phone in
        let* _id := insert_one "rewardaccount" acc in
        ret {| _id := _id; fields := acc |}
    end in
  let* sum := lift (points_plus acc (points body)) in
  let new_points := Z.max 0 sum in
  let tier :=
    if 500 <=? new_points then "Gold"
    else if 200 <=? new_points then "Silver" else "Bronze" in
  let* _ := update_one "rewardaccount" (Q_id (_id acc))
         (<["tier" := VStr tier]> {["points" := VInt new_points]}) in
  let* acc := find_one "rewardaccount" (Q_id (_id acc)) in
  ret (oid_str acc).

(** ** Requests *)

Inductive request : Type :=
  | GET_root
  | GET_settings
  | PUT_settings (authorization : option string) (payload : RestaurantSettings.t)
  | POST_admin_login (body : AdminLogin)
  | GET_menu (category : option string)
  | POST_menu (authorization : option string) (item : MenuItem.t)
  | PUT_menu (authorization : option string) (item_id : string) (item : MenuItem.t)
  | DELETE_menu (authorization : option string) (item_id : string)
  | POST_orders (order : Order.t)
  | GET_orders (authorization : option string) (status : option string)
  | PATCH_orders (authorization : option string) (order_id : string)
      (body : OrderStatusUpdate)
  | GET_orders_track (order_id : string)
  | POST_reviews (review : Review.t)
  | GET_reviews (limit : option Z)
  | GET_rewards (phone : string)
  | POST_rewards_add (authorization : option string) (phone : string)
      (body : RewardAdd).

(** The routing table; [limit] defaults to 20. *)
Definition handle (env : environ) (r : request) : M value :=
  match r with
  | GET_root => root
  | GET_settings => get_settings
  | PUT_settings a p => update_settings env a p
  | POST_admin_login b => admin_login env b
  | GET_menu c => list_menu c
  | POST_menu a i => create_menu_item env a i
  | PUT_menu a k i => update_menu_item env a k i
  | DELETE_menu a k => delete_menu_item env a k
  | POST_orders o => create_order o
  | GET_orders a s => list_orders env a s
  | PATCH_orders a k b => update_order_status env a k b
  | GET_orders_track k => track_order k
  | POST_reviews r => create_review r
  | GET_reviews None => list_reviews 20
  | GET_reviews (Some n) => list_reviews n
  | GET_rewards p => get_rewards p
  | POST_rewards_add a p b => add_points env a p b
  end.

(** The routes declared with [Depends(require_admin)], with the header
    they were called with. *)
Definition admin_header (r : request) : option (option string) :=
  match r with
  | PUT_settings a _ | POST_menu a _ | PUT_menu a _ _ | DELETE_menu a _
  | GET_orders a _ | PATCH_orders a _ _ | POST_rewards_add a _ _ => Some a
  | _ => None
  end.

(** A run of requests, each on the store the previous one left. *)
Fixpoint run (env : environ) (rs : list request) (db : database) : database :=
  match rs with
  | [] => db
  | r :: rs' => run env rs' (handle env r db).2
  end.

(** ** What the specification says, in its own words *)

(** The tier rule of the specification: points >= 500 is Gold,
    200 <= points < 500 is Silver, points < 200 is Bronze. *)
Definition tier_rule (points : Z) : string :=
  if 500 <=? points then "Gold"
  else if (200 <=? points) && (points <? 500) then "Silver"
  else "Bronze".

(** The header the specification asks for: [Bearer <token>] with the
    configured admin token. *)
Definition bearer_header (env : environ) : string :=
  "Bearer " +:+ getenv env "ADMIN_TOKEN" "admin-demo-token".

(** [old] occurs in [s]. *)
Fixpoint occurs (old s : string) : bool :=
  String.prefix old s ||
  match s with
  | EmptyString => false
  | String _ s' => occurs old s'
  end.

(** ** Store invariants *)

Definition id_lt (x y : document) : Prop := (_id x < _id y)%N.

(** Identifiers of a collection grow with insertion and are below the next
    one to hand out; [_id] is no key of [fields]. *)
Record coll_wf (bound : ObjectId) (c : collection) : Prop := {
  coll_sorted : StronglySorted id_lt c;
  coll_below : Forall (fun d => (_id d < bound)%N) c;
  coll_no_id : Forall (fun d => fields d !! "_id" = None) c }.

(** A reward account as the handlers write it. *)
Definition account_ok (d : document) : Prop :=
  exists (phone : string) (p : Z),
    fields d !! "customer_phone" = Some (VStr phone) /\
    fields d !! "points" = Some (VInt p) /\
    0 <= p /\
    fields d !! "tier" = Some (VStr (tier_rule p)).

Definition settings_ok (d : document) : Prop := fields d !! "_seed" = None.

Record db_wf (db : database) : Prop := {
  wf_colls : forall name, coll_wf (next_id db) (coll db name);
  wf_accounts : Forall account_ok (coll db "rewardaccount");
  wf_settings : Forall settings_ok (coll db "restaurantsettings") }.

(** A computation that keeps the store well formed. *)
Definition keeps {A} (m : M A) : Prop := forall db, db_wf db -> db_wf (m db).2.

(** The stores the API can build from the empty one. *)
Inductive reachable (env : environ) : database -> Prop :=
  | reachable_empty : reachable env empty_db
  | reachable_step db r :
      reachable env db -> reachable env (handle env r db).2.

(** The lines [get_rewards] and [add_points] start with: the account of
    [phone], created when there is none. *)
Definition get_or_create_account (phone : string) : M document :=
  let* acc := find_one "rewardaccount" (Q_field "customer_phone" phone) in
  match acc with
  | Some a => ret a
  | None =>
      let acc := new_account phone in
      let* _id := insert_one "rewardaccount" acc in
      ret {| _id := _id; fields := acc |}
  end.


(** The account stored for [phone]. *)
Definition stored_account (db : database) (phone : string) : option document :=
  List.find (matches (Q_field "customer_phone" phone)) (coll db "rewardaccount").

(** The order stored under [oid]. *)
Definition stored_order (db : database) (oid : ObjectId) : option document :=
  List.find (matches (Q_id oid)) (coll db "order").

(** ** Sample requests, for the examples *)

(** The header a client sends after [POST admin/login], no environment
    variable being set. *)
Definition admin_bearer : option string := Some "Bearer admin-demo-token".

Definition sample_item : MenuItem.t := {|
  MenuItem.title := "Mint tea";
  MenuItem.description := None;
  MenuItem.price := 2.5%float;
  MenuItem.category := "Drinks";
  MenuItem.image_url := None;
  MenuItem.is_available := true |}.

Definition sample_order : Order.t := {|
  Order.customer_name := Some "Lina";
  Order.table_number := Some "7";
  Order.items :=
    [{| OrderItem.item_id := "000000000000000000000000";
        OrderItem.title := "Mint tea";
        OrderItem.quantity := 2;
        OrderItem.unit_price := 2.5%float;
        OrderItem.notes := None |}];
  Order.total_amount := 5%float;
  Order.status := "Pending";
  Order.payment_status := "Unpaid";
  Order.created_at := None |}.

Definition sample_review (rating : Z) (comment : string) : Review.t := {|
  Review.rating := rating;
  Review.comment := Some comment;
  Review.photo_url := None;
  Review.customer_name := None;
  Review.order_id := None;
  Review.created_at := None |}.

(** A store with one menu item (identifier 0) and one order (identifier 1). *)
Definition sample_db : database :=
  run ∅ [POST_menu admin_bearer sample_item; POST_orders sample_order] empty_db.

(** A key of a JSON object answered by a handler. *)
Definition response_field (key : string) (r : result value) : option value :=
  match r with
  | Ok (VDict d) => d !! key
  | _ => None
  end.

(** The same key in each object of a JSON array answered by a handler. *)
Definition response_column (key : string) (r : result value) : list (option value) :=
  match r with
  | Ok (VList l) => (fun v => response_field key (Ok v)) <$> l
  | _ => []
  end.

(** ** Classes of requests *)

(** The routes whose handler calls no [insert_one], [update_one] or
    [delete_one]. *)
Definition read_only (r : request) : bool :=
  match r with
  | GET_root | GET_settings | POST_admin_login _ | GET_menu _
  | GET_orders _ _ | GET_orders_track _ | GET_reviews _ => true
  | _ => false
  end.

(** The collection the handler of a route writes to, when it writes. *)
Definition collection_of (r : request) : option string :=
  match r with
  | PUT_settings _ _ => Some "restaurantsettings"
  | POST_menu _ _ | PUT_menu _ _ _ | DELETE_menu _ _ => Some "menuitem"
  | POST_orders _ | PATCH_orders _ _ _ => Some "order"
  | POST_reviews _ => Some "review"
  | GET_rewards _ | POST_rewards_add _ _ _ => Some "rewardaccount"
  | _ => None
  end.


(** A computation that leaves the store as it is. *)
Definition pure {A} (m : M A) : Prop := forall db, (m db).2 = db.

(** A computation that writes to the collection [name] at most. *)
Definition writes_only {A} (name : string) (m : M A) : Prop :=
  forall db n, n <> name -> coll (m db).2 n = coll db n.

(** The phone number a reward account is filed under. *)
Definition account_phone (d : document) : option string :=
  match fields d !! "customer_phone" with
  | Some (VStr s) => Some s
  | _ => None
  end.

(** The phone numbers of the reward accounts, in insertion order. *)
Definition phones (db : database) : list (option string) :=
  account_phone <$> coll db "rewardaccount".

(** A computation that keeps the phone numbers of a well-formed store
    distinct. *)
Definition keeps_phones {A} (m : M A) : Prop :=
  forall db, db_wf db -> NoDup (phones db) -> NoDup (phones (m db).2).

(** A listing in the order of [sort("title", 1)]. *)
Definition sorted_by_title (l : list document) : Prop :=
  Sorted (fun x y => title_le x y = true) l.

(** * Properties *)

#[local] Open Scope list_scope.

(** ** Lists and collections *)

Section list_facts.
Context {A : Type} (p : A -> bool).

Lemma find_split (l : list A) (a : A) :
  List.find p l = Some a ->
  exists l1 l2, l = l1 ++ a :: l2 /\ Forall (fun x => p x = false) l1 /\ p a = true.
Proof.
  induction l as [|x l IH]; simpl; [discriminate|].
  destruct (p x) eqn:Hx.
  - intros [= ->]. exists [], l. auto.
  - intros Hf. destruct (IH Hf) as (l1 & l2 & -> & Hl1 & Ha).
    exists (x :: l1), l2. auto.
Qed.

Lemma find_skip (l1 l2 : list A) (a : A) :
  Forall (fun x => p x = false) l1 -> p a = true ->
  List.find p (l1 ++ a :: l2) = Some a.
Proof.
  induction 1 as [|x l1 Hx _ IH]; simpl; intros Ha.
  - by rewrite Ha.
  - rewrite Hx. auto.
Qed.

Lemma find_none_all (l : list A) :
  List.find p l = None -> Forall (fun x => p x = false) l.
Proof.
  induction l as [|x l IH]; simpl; [constructor|].
  destruct (p x) eqn:Hx; [discriminate|]. auto.
Qed.

Lemma find_all_none (l : list A) :
  Forall (fun x => p x = false) l -> List.find p l = None.
Proof.
  induction 1 as [|x l Hx _ IH]; simpl; [done|]. by rewrite Hx.
Qed.

End list_facts.

Lemma update_first_split q upd l1 a l2 :
  Forall (fun x => matches q x = false) l1 -> matches q a = true ->
  update_first q upd (l1 ++ a :: l2) = Some (l1 ++ apply_set upd a :: l2).
Proof.
  induction 1 as [|x l1 Hx _ IH]; simpl; intros Ha.
  - by rewrite Ha.
  - rewrite Hx, IH; done.
Qed.

Lemma update_first_none q upd c :
  List.find (matches q) c = None -> update_first q upd c = None.
Proof.
  induction c as [|x c IH]; simpl; [done|].
  destruct (matches q x); [discriminate|]. intros Hf. by rewrite IH.
Qed.

Lemma delete_first_split q l1 a l2 :
  Forall (fun x => matches q x = false) l1 -> matches q a = true ->
  delete_first q (l1 ++ a :: l2) = Some (l1 ++ l2).
Proof.
  induction 1 as [|x l1 Hx _ IH]; simpl; intros Ha.
  - by rewrite Ha.
  - rewrite Hx, IH; done.
Qed.

Lemma delete_first_none q c :
  List.find (matches q) c = None -> delete_first q c = None.
Proof.
  induction c as [|x c IH]; simpl; [done|].
  destruct (matches q x); [discriminate|]. intros Hf. by rewrite IH.
Qed.

Lemma coll_set_coll_eq db name c : coll (set_coll db name c) name = c.
Proof. unfold coll, set_coll; simpl. by rewrite lookup_insert_eq. Qed.

Lemma coll_set_coll_ne db name name' c :
  name <> name' -> coll (set_coll db name c) name' = coll db name'.
Proof. intros Hne. unfold coll, set_coll; simpl. by rewrite lookup_insert_ne. Qed.

Lemma coll_insert_one_eq db name doc :
  coll (insert_one name doc db).2 name
  = coll db name ++ [{| _id := next_id db; fields := doc |}].
Proof. unfold coll at 1, insert_one; simpl. by rewrite lookup_insert_eq. Qed.

Lemma coll_insert_one_ne db name name' doc :
  name <> name' -> coll (insert_one name doc db).2 name' = coll db name'.
Proof. intros Hne. unfold coll, insert_one; simpl. by rewrite lookup_insert_ne. Qed.

Lemma coll_empty_db name : coll empty_db name = [].
Proof. reflexivity. Qed.

(** ** The admin gate *)

Lemma prefix_app (p s : string) : String.prefix p (p +:+ s) = true.
Proof.
  induction p as [|c p IH]; simpl.
  - by destruct s.
  - destruct (Ascii.ascii_dec c c); [done | congruence].
Qed.

Lemma replace_from_skip old new (p s : string) :
  replace_from (String.length p) old new (p +:+ s) = replace_from 0 old new s.
Proof. induction p as [|c p IH]; simpl; [by destruct s | done]. Qed.

(** Replacing in [old +:+ s] consumes the leading [old]. *)
Lemma str_replace_prefix (old new s : string) :
  old <> "" -> str_replace (old +:+ s) old new = new +:+ str_replace s old new.
Proof.
  unfold str_replace. destruct old as [|c old]; [done|intros _].
  change (String c old +:+ s) with (String c (old +:+ s)).
  cbn [replace_from].
  change (String c (old +:+ s)) with (String c old +:+ s).
  rewrite prefix_app. cbn [String.length Nat.pred].
  by rewrite replace_from_skip.
Qed.

(** A string in which [old] does not occur is left as it is. *)
Lemma str_replace_absent (old new s : string) :
  occurs old s = false -> str_replace s old new = s.
Proof.
  unfold str_replace. induction s as [|c s IH].
  - done.
  - cbn [occurs]. intros [Hp Ho]%orb_false_elim.
    cbn [replace_from]. rewrite Hp. f_equal. auto.
Qed.

Lemma require_admin_cases env h :
  require_admin env h = Ok true \/
  require_admin env h = Raise (HTTPException 401 "Unauthorized").
Proof. unfold require_admin. case_bool_decide; simpl; auto. Qed.

Lemma require_admin_Ok env h :
  require_admin env h = Ok true <->
  exists a, h = Some a /\ a <> "" /\
    str_replace a "Bearer " "" = getenv env "ADMIN_TOKEN" "admin-demo-token".
Proof.
  unfold require_admin. split.
  - case_bool_decide as Htok; simpl; [intros _ | discriminate].
    destruct h as [[|c a]|]; simpl in Htok; try discriminate.
    exists (String c a). by inversion Htok.
  - intros (a & -> & Ha & Hr). destruct a as [|c a]; [done|].
    simpl. rewrite Hr. by rewrite bool_decide_eq_true_2.
Qed.

(** A route declared with [Depends(require_admin)] ends where the gate
    raises: the body is not looked at and the store is not touched. *)
Lemma admin_route_gate env r h e db :
  admin_header r = Some h -> require_admin env h = Raise e ->
  handle env r db = (Raise e, db).
Proof.
  intros Hr Hg.
  destruct r; simpl in Hr; try discriminate; injection Hr as ->; simpl;
    [ unfold update_settings | unfold create_menu_item | unfold update_menu_item
    | unfold delete_menu_item | unfold list_orders | unfold update_order_status
    | unfold add_points ];
    unfold bind, Depends, lift; by rewrite Hg.
Qed.

(** ** Sorting *)

Lemma insert_sorted_perm {A} (le : A -> A -> bool) x l :
  insert_sorted le x l ≡ₚ x :: l.
Proof.
  induction l as [|y l IH]; simpl; [done|].
  destruct (le x y); [done|]. rewrite IH. apply Permutation_swap.
Qed.

Lemma sort_by_perm {A} (le : A -> A -> bool) l : sort_by le l ≡ₚ l.
Proof.
  induction l as [|x l IH]; simpl; [done|].
  rewrite insert_sorted_perm. by constructor.
Qed.

Lemma cursor_sort_perm o c : cursor_sort o c ≡ₚ c.
Proof. destruct o; apply sort_by_perm. Qed.



(** ** The store invariant *)

Lemma update_first_ids q upd c c' :
  update_first q upd c = Some c' -> _id <$> c' = _id <$> c.
Proof.
  revert c'. induction c as [|x c IH]; simpl; intros c'; [discriminate|].
  destruct (matches q x).
  - by intros [= <-].
  - destruct (update_first q upd c) as [c''|]; [|discriminate].
    intros [= <-]. simpl. f_equal. auto.
Qed.

Lemma update_first_Forall (P : document -> Prop) q upd c c' :
  (forall d, P d -> P (apply_set upd d)) ->
  Forall P c -> update_first q upd c = Some c' -> Forall P c'.
Proof.
  intros HP Hc. revert c'. induction Hc as [|x c Hx Hc IH]; simpl; intros c';
    [discriminate|].
  destruct (matches q x).
  - intros [= <-]. constructor; auto.
  - destruct (update_first q upd c) as [c''|]; [|discriminate].
    intros [= <-]. constructor; auto.
Qed.

Lemma delete_first_Forall (P : document -> Prop) q c c' :
  Forall P c -> delete_first q c = Some c' -> Forall P c'.
Proof.
  intros Hc. revert c'. induction Hc as [|x c Hx Hc IH]; simpl; intros c';
    [discriminate|].
  destruct (matches q x).
  - by intros [= <-].
  - destruct (delete_first q c) as [c''|]; [|discriminate].
    intros [= <-]. constructor; auto.
Qed.

Lemma delete_first_sorted q c c' :
  StronglySorted id_lt c -> delete_first q c = Some c' -> StronglySorted id_lt c'.
Proof.
  intros Hc. revert c'. induction Hc as [|x c Hc IH Hx]; simpl; intros c';
    [discriminate|].
  destruct (matches q x).
  - by intros [= <-].
  - destruct (delete_first q c) as [c''|] eqn:Hd; [|discriminate].
    intros [= <-]. constructor; [auto|]. eapply delete_first_Forall; eauto.
Qed.

Lemma sorted_by_ids c :
  StronglySorted id_lt c <-> StronglySorted N.lt (_id <$> c).
Proof.
  split.
  - induction 1 as [|x c _ IH Hx]; simpl; constructor; [done|].
    by apply Forall_fmap.
  - induction c as [|x c IH]; simpl; [constructor|].
    intros [Hc Hx]%StronglySorted_inv. constructor; [auto|].
    rewrite Forall_fmap in Hx. exact Hx.
Qed.

Lemma coll_wf_nil bound : coll_wf bound [].
Proof. split; constructor. Qed.

Lemma coll_wf_succ bound c : coll_wf bound c -> coll_wf (N.succ bound) c.
Proof.
  intros [Hs Hb Hn]. split; [done| |done].
  eapply Forall_impl; [exact Hb|]. simpl. intros; lia.
Qed.

Lemma coll_wf_snoc bound c doc :
  coll_wf bound c -> doc !! "_id" = None ->
  coll_wf (N.succ bound) (c ++ [{| _id := bound; fields := doc |}]).
Proof.
  intros [Hs Hb Hn] Hdoc. split.
  - apply StronglySorted_app. split; [|split; [done|repeat constructor]].
    intros x y Hx ->%list_elem_of_singleton.
    rewrite Forall_forall in Hb. unfold id_lt; simpl. auto.
  - apply Forall_app; split.
    + eapply Forall_impl; [exact Hb|]. simpl. intros; lia.
    + repeat constructor. simpl. lia.
  - apply Forall_app; split; [done|]. by repeat constructor.
Qed.

Lemma coll_wf_update bound q upd c c' :
  coll_wf bound c -> upd !! "_id" = None ->
  update_first q upd c = Some c' -> coll_wf bound c'.
Proof.
  intros [Hs Hb Hn] Hupd Hu. split.
  - apply sorted_by_ids. rewrite (update_first_ids _ _ _ _ Hu).
    by apply sorted_by_ids.
  - eapply update_first_Forall; [|exact Hb|exact Hu]. done.
  - eapply update_first_Forall; [|exact Hn|exact Hu].
    intros d Hd. simpl. apply lookup_union_None. done.
Qed.

Lemma coll_wf_delete bound q c c' :
  coll_wf bound c -> delete_first q c = Some c' -> coll_wf bound c'.
Proof.
  intros [Hs Hb Hn] Hd. split.
  - eapply delete_first_sorted; eauto.
  - eapply delete_first_Forall; eauto.
  - eapply delete_first_Forall; eauto.
Qed.

Lemma db_wf_empty : db_wf empty_db.
Proof.
  split; [intros name; rewrite coll_empty_db; apply coll_wf_nil| |];
    rewrite coll_empty_db; constructor.
Qed.

Section keeps.
Context {A B : Type}.

Lemma keeps_ret (a : A) : keeps (ret a).
Proof. by intros db. Qed.

Lemma keeps_raise (e : exn) : keeps (raise (A := A) e).
Proof. by intros db. Qed.

Lemma keeps_lift (r : result A) : keeps (lift r).
Proof. by intros db. Qed.

Lemma keeps_bind (m : M A) (k : A -> M B) :
  keeps m -> (forall a, keeps (k a)) -> keeps (bind m k).
Proof.
  intros Hm Hk db Hdb. unfold bind.
  specialize (Hm db Hdb). destruct (m db) as [[a|e] db']; simpl in *; [|done].
  by apply Hk.
Qed.
End keeps.

Lemma keeps_validated ok : keeps (validated ok).
Proof. unfold validated. destruct ok; [apply keeps_ret | apply keeps_raise]. Qed.

Lemma keeps_find_one name q : keeps (find_one name q).
Proof. by intros db. Qed.

Lemma keeps_find_one_projected name q keys : keeps (find_one_projected name q keys).
Proof. by intros db. Qed.

Lemma keeps_find name q : keeps (find name q).
Proof. by intros db. Qed.

(** An insert keeps the store well formed when the document fits the
    collection it goes to. *)
Lemma keeps_insert_one name doc :
  doc !! "_id" = None ->
  (name = "rewardaccount" -> account_ok {| _id := 0%N; fields := doc |}) ->
  (name = "restaurantsettings" -> doc !! "_seed" = None) ->
  keeps (insert_one name doc).
Proof.
  intros Hid Hacc Hset db [Hc Ha Hs]. split.
  - intros name'. change (next_id (insert_one name doc db).2) with (N.succ (next_id db)).
    destruct (decide (name = name')) as [<-|Hne].
    + rewrite coll_insert_one_eq. by apply coll_wf_snoc.
    + rewrite coll_insert_one_ne by done. by apply coll_wf_succ.
  - destruct (decide (name = "rewardaccount")) as [->|Hne].
    + rewrite coll_insert_one_eq. apply Forall_app; split; [done|].
      repeat constructor. by apply Hacc.
    + by rewrite coll_insert_one_ne.
  - destruct (decide (name = "restaurantsettings")) as [->|Hne].
    + rewrite coll_insert_one_eq. apply Forall_app; split; [done|].
      repeat constructor. by apply Hset.
    + by rewrite coll_insert_one_ne.
Qed.

(** So does a [$set] that leaves accounts accounts and sets no [_seed]. *)
Lemma keeps_update_one name q upd :
  upd !! "_id" = None ->
  (name = "rewardaccount" -> forall d, account_ok d -> account_ok (apply_set upd d)) ->
  (name = "restaurantsettings" -> upd !! "_seed" = None) ->
  keeps (update_one name q upd).
Proof.
  intros Hid Hacc Hset db [Hc Ha Hs]. unfold update_one.
  destruct (update_first q upd (coll db name)) as [c'|] eqn:Hu; [|by split].
  simpl. split.
  - intros name'. change (next_id (set_coll db name c')) with (next_id db).
    destruct (decide (name = name')) as [<-|Hne].
    + rewrite coll_set_coll_eq. eapply coll_wf_update; eauto.
    + by rewrite coll_set_coll_ne.
  - destruct (decide (name = "rewardaccount")) as [->|Hne].
    + rewrite coll_set_coll_eq. eapply update_first_Forall; [|exact Ha|exact Hu].
      by apply Hacc.
    + by rewrite coll_set_coll_ne.
  - destruct (decide (name = "restaurantsettings")) as [->|Hne].
    + rewrite coll_set_coll_eq. eapply update_first_Forall; [|exact Hs|exact Hu].
      intros d Hd. unfold settings_ok; simpl. apply lookup_union_None.
      split; [by apply Hset | done].
    + by rewrite coll_set_coll_ne.
Qed.

Lemma keeps_delete_one name q : keeps (delete_one name q).
Proof.
  intros db [Hc Ha Hs]. unfold delete_one.
  destruct (delete_first q (coll db name)) as [c'|] eqn:Hd; [|by split].
  simpl. split.
  - intros name'. change (next_id (set_coll db name c')) with (next_id db).
    destruct (decide (name = name')) as [<-|Hne].
    + rewrite coll_set_coll_eq. eapply coll_wf_delete; eauto.
    + by rewrite coll_set_coll_ne.
  - destruct (decide (name = "rewardaccount")) as [->|Hne].
    + rewrite coll_set_coll_eq. eapply delete_first_Forall; eauto.
    + by rewrite coll_set_coll_ne.
  - destruct (decide (name = "restaurantsettings")) as [->|Hne].
    + rewrite coll_set_coll_eq. eapply delete_first_Forall; eauto.
    + by rewrite coll_set_coll_ne.
Qed.

(** The tier [add_points] computes is the tier of the rule. *)
Lemma tier_rule_code (new_points : Z) :
  (if 500 <=? new_points then "Gold"
   else if 200 <=? new_points then "Silver" else "Bronze")
  = tier_rule new_points.
Proof.
  unfold tier_rule.
  destruct (Z.leb_spec 500 new_points); [done|].
  destruct (Z.leb_spec 200 new_points); simpl; [|done].
  destruct (Z.ltb_spec new_points 500); [done|lia].
Qed.

Lemma new_account_ok phone i :
  account_ok {| _id := i; fields := new_account phone |}.
Proof. exists phone, 0. by repeat split. Qed.

Lemma apply_set_points upd_points tier d :
  fields (apply_set (<["tier" := VStr tier]> {["points" := VInt upd_points]}) d)
  = <["tier" := VStr tier]> (<["points" := VInt upd_points]> (fields d)).
Proof.
  simpl. rewrite <- insert_union_l. f_equal.
  by rewrite <- insert_union_singleton_l.
Qed.

Lemma account_ok_set_points new_points d :
  0 <= new_points -> account_ok d ->
  account_ok
    (apply_set (<["tier" := VStr (tier_rule new_points)]> {["points" := VInt new_points]}) d).
Proof.
  intros Hp (phone & p & Hphone & _). exists phone, new_points.
  rewrite apply_set_points. by simplify_map_eq.
Qed.

(** [get_rewards] and [add_points], with their common start named. *)
Lemma get_rewards_eq phone :
  get_rewards phone
  = (let* acc := get_or_create_account phone in ret (oid_str (Some acc))).
Proof. reflexivity. Qed.

Lemma add_points_eq env authorization phone body :
  add_points env authorization phone body
  = (let* _ := Depends (require_admin env authorization) in
     let* acc := get_or_create_account phone in
     let* sum := lift (points_plus acc (points body)) in
     let new_points := Z.max 0 sum in
     let tier :=
       if 500 <=? new_points then "Gold"
       else if 200 <=? new_points then "Silver" else "Bronze" in
     let* _ := update_one "rewardaccount" (Q_id (_id acc))
                 (<["tier" := VStr tier]> {["points" := VInt new_points]}) in
     let* acc := find_one "rewardaccount" (Q_id (_id acc)) in
     ret (oid_str acc)).
Proof. reflexivity. Qed.

Ltac keeps_step :=
  first
    [ apply keeps_ret | apply keeps_raise | apply keeps_lift
    | apply keeps_validated | apply keeps_find_one
    | apply keeps_find_one_projected | apply keeps_find
    | apply keeps_delete_one
    | apply keeps_insert_one; [reflexivity | done | done]
    | apply keeps_update_one; [reflexivity | done | done]
    | apply keeps_bind; [|intros ?]
    | match goal with
      | |- keeps (match ?x with _ => _ end) => destruct x
      end ].

Lemma keeps_get_or_create_account phone : keeps (get_or_create_account phone).
Proof.
  unfold get_or_create_account. apply keeps_bind; [keeps_step|].
  intros [a|]; [keeps_step|].
  apply keeps_bind; [|intros ?; keeps_step].
  apply keeps_insert_one; [reflexivity| |done].
  intros _. apply new_account_ok.
Qed.

Lemma keeps_add_points env authorization phone body :
  keeps (add_points env authorization phone body).
Proof.
  rewrite add_points_eq. unfold Depends.
  apply keeps_bind; [keeps_step|intros _].
  apply keeps_bind; [apply keeps_get_or_create_account|intros acc].
  apply keeps_bind; [keeps_step|intros sum].
  rewrite tier_rule_code.
  apply keeps_bind; [|intros _; repeat keeps_step].
  apply keeps_update_one; [reflexivity| |done].
  intros _ d Hd. apply account_ok_set_points; [lia|done].
Qed.

(** Every request leaves a well-formed store well formed. *)
Lemma handle_keeps env r : keeps (handle env r).
Proof.
  destruct r as [| | | | | | | | | | | | |limit| |]; simpl.
  - apply keeps_ret.
  - unfold get_settings. repeat keeps_step.
  - unfold update_settings, Depends. repeat keeps_step.
  - unfold admin_login. repeat keeps_step.
  - unfold list_menu. repeat keeps_step.
  - unfold create_menu_item, Depends. repeat keeps_step.
  - unfold update_menu_item, Depends. repeat keeps_step.
  - unfold delete_menu_item, Depends. repeat keeps_step.
  - unfold create_order. repeat keeps_step.
  - unfold list_orders, Depends. repeat keeps_step.
  - unfold update_order_status, Depends. repeat keeps_step.
  - unfold track_order. repeat keeps_step.
  - unfold create_review. repeat keeps_step.
  - destruct limit; unfold list_reviews; repeat keeps_step.
  - rewrite get_rewards_eq. keeps_step; [apply keeps_get_or_create_account|keeps_step].
  - apply keeps_add_points.
Qed.

Lemma run_keeps env rs db : db_wf db -> db_wf (run env rs db).
Proof.
  revert db. induction rs as [|r rs IH]; simpl; intros db Hdb; [done|].
  apply IH. by apply handle_keeps.
Qed.

Lemma reachable_wf env db : reachable env db -> db_wf db.
Proof.
  induction 1 as [|db r _ IH]; [apply db_wf_empty | by apply handle_keeps].
Qed.

(** ** Reward accounts *)

Lemma get_or_create_found phone db acc :
  stored_account db phone = Some acc ->
  get_or_create_account phone db = (Ok acc, db).
Proof.
  unfold stored_account, get_or_create_account, bind, find_one. by intros ->.
Qed.

Lemma get_or_create_fresh phone db :
  stored_account db phone = None ->
  get_or_create_account phone db
  = (Ok {| _id := next_id db; fields := new_account phone |},
     (insert_one "rewardaccount" (new_account phone) db).2).
Proof.
  unfold stored_account, get_or_create_account, bind, find_one. by intros ->.
Qed.

Lemma matches_new_account phone i :
  matches (Q_field "customer_phone" phone) {| _id := i; fields := new_account phone |}
  = true.
Proof.
  unfold matches. cbn [fields].
  change (new_account phone !! "customer_phone") with (Some (VStr phone)).
  simpl. by apply bool_decide_eq_true_2.
Qed.

(** Where the account of [phone] stands once it is there: first of its
    phone number in the collection. *)
Lemma get_or_create_account_spec phone db :
  exists acc db1 l1 l2,
    get_or_create_account phone db = (Ok acc, db1) /\
    coll db1 "rewardaccount" = l1 ++ acc :: l2 /\
    Forall (fun x => matches (Q_field "customer_phone" phone) x = false) l1 /\
    matches (Q_field "customer_phone" phone) acc = true /\
    match stored_account db phone with
    | Some a => acc = a /\ db1 = db
    | None =>
        acc = {| _id := next_id db; fields := new_account phone |} /\
        db1 = (insert_one "rewardaccount" (new_account phone) db).2 /\
        l1 = coll db "rewardaccount" /\ l2 = []
    end.
Proof.
  destruct (stored_account db phone) as [a|] eqn:Hst.
  - destruct (find_split _ _ _ Hst) as (l1 & l2 & Hc & Hl1 & Ha).
    exists a, db, l1, l2. by rewrite (get_or_create_found _ _ _ Hst).
  - eexists _, _, (coll db "rewardaccount"), [].
    rewrite (get_or_create_fresh _ _ Hst). repeat split.
    + by rewrite coll_insert_one_eq.
    + by apply find_none_all.
    + apply matches_new_account.
Qed.

(** In a collection with growing identifiers, no document before [a] has
    the identifier of [a]. *)
Lemma sorted_prefix_other_ids l1 a l2 :
  StronglySorted id_lt (l1 ++ a :: l2) ->
  Forall (fun x => matches (Q_id (_id a)) x = false) l1.
Proof.
  intros (Hlt & _ & _)%StronglySorted_app. apply Forall_forall. intros x Hx.
  assert (id_lt x a) as Hxa by (apply Hlt; [done | left]).
  unfold id_lt in Hxa. simpl. apply bool_decide_eq_false_2. lia.
Qed.

Lemma matches_id_refl a : matches (Q_id (_id a)) a = true.
Proof. simpl. by apply bool_decide_eq_true_2. Qed.

Lemma matches_id_self a upd : matches (Q_id (_id a)) (apply_set upd a) = true.
Proof. apply (matches_id_refl (apply_set upd a)). Qed.










(** C3.  [GET rewards/{phone}] for a phone number with no account creates
    one with 0 points and the Bronze tier and returns it; a second call
    returns the same account and creates nothing. *)
Theorem get_rewards_creates_once phone db :
  stored_account db phone = None ->
  let created := {| _id := next_id db; fields := new_account phone |} in
  get_rewards phone db
  = (Ok (oid_str (Some created)),
     (insert_one "rewardaccount" (new_account phone) db).2) /\
  oid_str (Some created)
  = VDict (list_to_map
             [("customer_phone", VStr phone); ("points", VInt 0);
              ("tier", VStr "Bronze");
              ("id", VStr (ObjectId_str (next_id db)))]) /\
  coll (get_rewards phone db).2 "rewardaccount"
  = coll db "rewardaccount" ++ [created] /\
  get_rewards phone (get_rewards phone db).2
  = (Ok (oid_str (Some created)), (get_rewards phone db).2).
Proof.
  intros Hnew created.
  assert (get_rewards phone db
          = (Ok (oid_str (Some created)),
             (insert_one "rewardaccount" (new_account phone) db).2)) as Hfirst.
  { rewrite get_rewards_eq. unfold bind. by rewrite (get_or_create_fresh _ _ Hnew). }
  assert (coll (get_rewards phone db).2 "rewardaccount"
          = coll db "rewardaccount" ++ [created]) as Hcoll.
  { rewrite Hfirst. apply coll_insert_one_eq. }
  split; [exact Hfirst|]. split; [reflexivity|]. split; [exact Hcoll|].
  assert (stored_account (get_rewards phone db).2 phone = Some created) as Hst.
  { unfold stored_account. rewrite Hcoll. apply find_skip.
    - by apply find_none_all.
    - apply matches_new_account. }
  change (get_rewards phone (get_rewards phone db).2)
    with ((let* acc := get_or_create_account phone in ret (oid_str (Some acc)))
            (get_rewards phone db).2).
  unfold bind. by rewrite (get_or_create_found _ _ _ Hst).
Qed.

Lemma get_rewards_creates_once_witness :
  let created := {| _id := next_id empty_db; fields := new_account "0550123456" |} in
  get_rewards "0550123456" empty_db
  = (Ok (oid_str (Some created)),
     (insert_one "rewardaccount" (new_account "0550123456") empty_db).2) /\
  oid_str (Some created)
  = VDict (list_to_map
             [("customer_phone", VStr "0550123456"); ("points", VInt 0);
              ("tier", VStr "Bronze");
              ("id", VStr (ObjectId_str (next_id empty_db)))]) /\
  coll (get_rewards "0550123456" empty_db).2 "rewardaccount"
  = coll empty_db "rewardaccount" ++ [created] /\
  get_rewards "0550123456" (get_rewards "0550123456" empty_db).2
  = (Ok (oid_str (Some created)), (get_rewards "0550123456" empty_db).2).
Proof.
  apply (get_rewards_creates_once "0550123456" empty_db). reflexivity.
Defined.

(** ** Admin-only routes *)

(** C4, as the code has it.  The gate lets a request through exactly when
    the [Authorization] header is present, not empty, and equal to the
    configured admin token once every occurrence of ["Bearer "] is deleted
    from it.  Otherwise it answers 401 Unauthorized, and so does every
    admin-only route, whatever its payload, without touching the store.  No
    header is a 401; [Bearer t], for a [t] in which ["Bearer "] does not
    occur, passes exactly when [t] is the admin token. *)
Theorem require_admin_gate env h :
  let admin_token := getenv env "ADMIN_TOKEN" "admin-demo-token" in
  (require_admin env h = Ok true <->
   exists a, h = Some a /\ a <> "" /\ str_replace a "Bearer " "" = admin_token) /\
  (require_admin env h <> Ok true ->
   require_admin env h = Raise (HTTPException 401 "Unauthorized") /\
   forall r db,
     admin_header r = Some h ->
     handle env r db = (Raise (HTTPException 401 "Unauthorized"), db) /\
     status_of (handle env r db).1 = 401) /\
  require_admin env None = Raise (HTTPException 401 "Unauthorized") /\
  (forall t,
     occurs "Bearer " t = false ->
     (require_admin env (Some ("Bearer " +:+ t)) = Ok true <-> t = admin_token)).
Proof.
  intros admin_token. split; [apply require_admin_Ok|]. split; [|split].
  - intros Hno. destruct (require_admin_cases env h) as [Hok|H401]; [done|].
    split; [done|]. intros r db Hr.
    rewrite (admin_route_gate env r h _ db Hr H401). by split.
  - reflexivity.
  - intros t Ht. rewrite require_admin_Ok. split.
    + intros (a & [= <-] & _ & Hrep).
      rewrite str_replace_prefix, str_replace_absent in Hrep by done.
      exact Hrep.
    + intros ->. exists ("Bearer " +:+ admin_token). split; [done|]. split; [done|].
      by rewrite str_replace_prefix, str_replace_absent.
Qed.

(** C4, as the specification words it, fails: the bare token, with no
    [Bearer] in front, passes the gate, and so does a header of the
    [Bearer <token>] form whose token is not the admin token. *)
Lemma require_admin_accepts_other_headers :
  require_admin ∅ (Some "admin-demo-token") = Ok true /\
  "admin-demo-token" <> bearer_header ∅ /\
  (delete_menu_item ∅ (Some "admin-demo-token") "000000000000000000000000" empty_db).1
  = Raise (HTTPException 404 "Item not found") /\
  require_admin ∅ (Some ("Bearer " +:+ "admin-Bearer demo-token")) = Ok true /\
  "admin-Bearer demo-token" <> getenv ∅ "ADMIN_TOKEN" "admin-demo-token".
Proof.
  split; [reflexivity|]. split; [discriminate|]. split; [reflexivity|].
  split; [reflexivity|discriminate].
Qed.

(** ** Orders *)

(** The document an insert stored is the one found under its identifier. *)
Lemma find_inserted name doc db :
  db_wf db ->
  List.find (matches (Q_id (next_id db))) (coll (insert_one name doc db).2 name)
  = Some {| _id := next_id db; fields := doc |}.
Proof.
  intros Hwf. rewrite coll_insert_one_eq. apply find_skip.
  - eapply Forall_impl; [apply (coll_below _ _ (wf_colls _ Hwf name))|].
    intros d Hd. simpl in *. apply bool_decide_eq_false_2.
    intros Heq. rewrite Heq in Hd. lia.
  - apply matches_id_refl.
Qed.

(** [POST orders] stores the status of a valid order, one of the four
    of the schema; an order that fails its schema is not stored. *)
Lemma create_order_status order db :
  db_wf db ->
  if Order.validate order
  then
    create_order order db
    = (Ok (oid_str (Some {| _id := next_id db; fields := Order.model_dump order |})),
       (insert_one "order" (Order.model_dump order) db).2) /\
    stored_order (create_order order db).2 (next_id db)
    = Some {| _id := next_id db; fields := Order.model_dump order |} /\
    Order.model_dump order !! "status" = Some (VStr (Order.status order)) /\
    Order.status order ∈ Order.statuses
  else create_order order db = (Raise RequestValidationError, db).
Proof.
  intros Hwf. unfold create_order, bind, validated.
  destruct (Order.validate order) eqn:Hv; [|reflexivity].
  unfold ret at 1. cbn [fst snd].
  unfold find_one, stored_order, ret.
  change (insert_one "order" (Order.model_dump order) db)
    with (Ok (next_id db), (insert_one "order" (Order.model_dump order) db).2).
  cbn [fst snd]. rewrite (find_inserted "order" _ db Hwf).
  repeat split.
  unfold Order.validate in Hv.
  apply andb_prop in Hv as [Hv _]. apply andb_prop in Hv as [_ Hv].
  by apply bool_decide_eq_true in Hv.
Qed.

(** C5 fails on [PATCH orders/{id}]: its body declares [status] as any
    string, so an admin can store a status outside the four values.  On a
    store holding one order, created Pending by [POST orders], a PATCH with
    the status [Shipped] succeeds and leaves [Shipped] in the store. *)
Theorem update_order_status_stores_any_string :
  let db1 := (create_order sample_order empty_db).2 in
  let r :=
    update_order_status ∅ admin_bearer "000000000000000000000000"
      {| status := "Shipped" |} db1 in
  (fields <$> stored_order db1 0%N) ≫= (.!! "status") = Some (VStr "Pending") /\
  status_of r.1 = 200 /\
  response_field "status" r.1 = Some (VStr "Shipped") /\
  (fields <$> stored_order r.2 0%N) ≫= (.!! "status") = Some (VStr "Shipped") /\
  "Shipped" ∉ Order.statuses.
Proof.
  intros db1 r.
  assert (stored_order db1 0%N
          = Some {| _id := 0%N; fields := Order.model_dump sample_order |}) as Hbefore.
  { pose proof (create_order_status sample_order empty_db db_wf_empty) as Hcreate.
    change (Order.validate sample_order) with true in Hcreate.
    by destruct Hcreate as (_ & Hstored & _). }
  split; [by rewrite Hbefore|].
  split; [by vm_compute|]. split; [by vm_compute|]. split; [by vm_compute|].
  apply (bool_decide_eq_false _). reflexivity.
Qed.

(** C7.  For a caller that passes the gate and a well-formed identifier:
    when an order is stored under it, [PATCH orders/{id}] answers with that
    order, its [status] set to the one of the body, and stores it in place
    of the old one; every other key of the order ([payment_status] among
    them), every other order, every other collection and the identifier
    counter are as before.  When no order is stored under it, the answer is
    404 Not Found and the store is as before. *)
Theorem update_order_status_frame env authorization order_id oid body db :
  require_admin env authorization = Ok true ->
  PyObjectId_validate order_id = Ok oid ->
  match stored_order db oid with
  | Some d =>
      let d' :=
        {| _id := _id d; fields := <["status" := VStr (status body)]> (fields d) |} in
      exists l1 l2,
        coll db "order" = l1 ++ d :: l2 /\
        update_order_status env authorization order_id body db
        = (Ok (oid_str (Some d')), set_coll db "order" (l1 ++ d' :: l2)) /\
        (forall k, k <> "status" -> fields d' !! k = fields d !! k) /\
        fields d' !! "payment_status" = fields d !! "payment_status" /\
        (forall name, name <> "order" ->
           coll (update_order_status env authorization order_id body db).2 name
           = coll db name) /\
        next_id (update_order_status env authorization order_id body db).2 = next_id db
  | None =>
      update_order_status env authorization order_id body db
      = (Raise (HTTPException 404 "Order not found"), db)
  end.
Proof.
  intros Hadm Hoid. unfold stored_order.
  destruct (List.find (matches (Q_id oid)) (coll db "order")) as [d|] eqn:Hfind.
  - destruct (find_split _ _ _ Hfind) as (l1 & l2 & Hc & Hl1 & Hd).
    exists l1, l2. split; [exact Hc|].
    assert (update_order_status env authorization order_id body db
            = (Ok (oid_str (Some {| _id := _id d;
                                    fields := <["status" := VStr (status body)]> (fields d) |})),
               set_coll db "order"
                 (l1 ++ {| _id := _id d;
                           fields := <["status" := VStr (status body)]> (fields d) |} :: l2)))
      as Hrun.
    { unfold update_order_status, bind, Depends, lift. rewrite Hadm, Hoid.
      unfold update_one. rewrite Hc, (update_first_split _ _ _ _ _ Hl1 Hd).
      unfold apply_set. rewrite <- insert_union_singleton_l.
      unfold find_one. rewrite coll_set_coll_eq.
      rewrite (find_skip _ l1 l2 _ Hl1); [done|exact Hd]. }
    rewrite Hrun. cbn [fst snd fields]. repeat split.
    + intros k Hk. by rewrite lookup_insert_ne.
    + by rewrite lookup_insert_ne.
    + intros name Hname. by rewrite coll_set_coll_ne.
  - unfold update_order_status, bind, Depends, lift. rewrite Hadm, Hoid.
    unfold update_one. rewrite (update_first_none _ _ _ Hfind).
    unfold find_one. by rewrite Hfind.
Qed.

Lemma update_order_status_frame_witness :
  match stored_order sample_db 1%N with
  | Some d =>
      let d' :=
        {| _id := _id d;
           fields := <["status" := VStr (status {| status := "Ready" |})]> (fields d) |} in
      exists l1 l2,
        coll sample_db "order" = l1 ++ d :: l2 /\
        update_order_status ∅ admin_bearer "000000000000000000000001"
          {| status := "Ready" |} sample_db
        = (Ok (oid_str (Some d')), set_coll sample_db "order" (l1 ++ d' :: l2)) /\
        (forall k, k <> "status" -> fields d' !! k = fields d !! k) /\
        fields d' !! "payment_status" = fields d !! "payment_status" /\
        (forall name, name <> "order" ->
           coll (update_order_status ∅ admin_bearer "000000000000000000000001"
                   {| status := "Ready" |} sample_db).2 name
           = coll sample_db name) /\
        next_id (update_order_status ∅ admin_bearer "000000000000000000000001"
                   {| status := "Ready" |} sample_db).2 = next_id sample_db
  | None =>
      update_order_status ∅ admin_bearer "000000000000000000000001"
        {| status := "Ready" |} sample_db
      = (Raise (HTTPException 404 "Order not found"), sample_db)
  end.
Proof.
  apply (update_order_status_frame ∅ admin_bearer "000000000000000000000001" 1%N
           {| status := "Ready" |} sample_db); reflexivity.
Defined.

(** The order of the sample store is found, so the witness above is the
    case of an existing order. *)
Example sample_order_is_stored :
  (fields <$> stored_order sample_db 1%N) ≫= (.!! "status") = Some (VStr "Pending").
Proof. by vm_compute. Qed.

(** ** Malformed identifiers *)

Lemma validate_malformed k :
  ObjectId_is_valid k = false ->
  PyObjectId_validate k = Raise (ValueError "Invalid ObjectId").
Proof. unfold PyObjectId_validate. by intros ->. Qed.

Lemma validate_well_formed k :
  ObjectId_is_valid k = true -> exists oid, PyObjectId_validate k = Ok oid.
Proof.
  intros Hvalid. unfold PyObjectId_validate. rewrite Hvalid.
  unfold ObjectId_is_valid in Hvalid.
  apply andb_prop in Hvalid as [_ [oid Hoid]%bool_decide_eq_true].
  exists oid. by rewrite Hoid.
Qed.

(** Each of the four routes with an identifier in its path lets the
    [ValueError] of [PyObjectId.validate] escape, before it reads or writes
    any document. *)
Lemma malformed_id_raises env authorization k db :
  ObjectId_is_valid k = false -> require_admin env authorization = Ok true ->
  let failed := (Raise (ValueError "Invalid ObjectId"), db) in
  (forall item, MenuItem.validate item = true ->
     update_menu_item env authorization k item db = failed) /\
  delete_menu_item env authorization k db = failed /\
  (forall body, update_order_status env authorization k body db = failed) /\
  track_order k db = failed.
Proof.
  intros Hk%validate_malformed Hadm failed. repeat split.
  - intros item Hitem.
    unfold update_menu_item, bind, Depends, validated, lift.
    by rewrite Hadm, Hitem, Hk.
  - unfold delete_menu_item, bind, Depends, lift. by rewrite Hadm, Hk.
  - intros body. unfold update_order_status, bind, Depends, lift.
    by rewrite Hadm, Hk.
  - unfold track_order, bind, lift. by rewrite Hk.
Qed.

(** C6 fails: a malformed identifier is answered with an internal server
    error, not with a 422.  [PyObjectId.validate] raises a bare
    [ValueError] inside the handler, which FastAPI answers with 500; shown
    on the four routes for the identifier [not-an-id], an admin caller and a
    valid body.  The store is not touched. *)
Theorem malformed_id_is_internal_error :
  let bad := "not-an-id" in
  let failed := (Raise (ValueError "Invalid ObjectId"), sample_db) in
  update_menu_item ∅ admin_bearer bad sample_item sample_db = failed /\
  delete_menu_item ∅ admin_bearer bad sample_db = failed /\
  update_order_status ∅ admin_bearer bad {| status := "Ready" |} sample_db = failed /\
  track_order bad sample_db = failed /\
  status_of failed.1 = 500 /\
  status_of failed.1 <> 422.
Proof.
  intros bad failed.
  destruct (malformed_id_raises ∅ admin_bearer bad sample_db)
    as (Hput & Hdelete & Hpatch & Htrack); [reflexivity|reflexivity|].
  split; [by apply Hput|]. split; [exact Hdelete|]. split; [apply Hpatch|].
  split; [exact Htrack|]. split; [reflexivity|discriminate].
Qed.

(** ** Settings *)



(** The same on a store whose settings were saved by [PUT settings]: the
    answer carries [id] and the saved name, and no [_seed]. *)
Example get_settings_after_put :
  let db := run ∅ [PUT_settings admin_bearer RestaurantSettings.default] empty_db in
  response_field "id" (get_settings db).1 = Some (VStr "000000000000000000000000") /\
  response_field "restaurant_name" (get_settings db).1 = Some (VStr "Your Restaurant") /\
  response_field "_seed" (get_settings db).1 = None /\
  response_field "_seed" (get_settings empty_db).1 = Some (VBool true).
Proof. by vm_compute. Qed.

(** ** Listings *)









(** The three reviews of the specification's example, on the empty store. *)
Example list_reviews_three :
  let db :=
    run ∅ [POST_reviews (sample_review 5 "R1"); POST_reviews (sample_review 4 "R2");
           POST_reviews (sample_review 3 "R3")] empty_db in
  response_column "comment" (list_reviews 2 db).1 = [Some (VStr "R3"); Some (VStr "R2")] /\
  response_column "comment" (handle ∅ (GET_reviews None) db).1
  = [Some (VStr "R3"); Some (VStr "R2"); Some (VStr "R1")].
Proof. by vm_compute. Qed.


(** On the sample store, whose only menu item is a drink, the empty
    category lists that item, where the category [Meals] lists none. *)
Example list_menu_empty_category :
  response_column "title" (list_menu (Some "") sample_db).1 = [Some (VStr "Mint tea")] /\
  response_column "title" (list_menu None sample_db).1 = [Some (VStr "Mint tea")] /\
  response_column "title" (list_menu (Some "Drinks") sample_db).1 = [Some (VStr "Mint tea")] /\
  response_column "title" (list_menu (Some "Meals") sample_db).1 = [] /\
  response_column "status" (list_orders ∅ admin_bearer (Some "") sample_db).1
  = [Some (VStr "Pending")] /\
  response_column "status" (list_orders ∅ admin_bearer (Some "Ready") sample_db).1 = [].
Proof. by vm_compute. Qed.

(** ** Further examples *)

Example require_admin_examples :
  require_admin ∅ admin_bearer = Ok true /\
  require_admin ∅ (Some "Bearer wrong") = Raise (HTTPException 401 "Unauthorized") /\
  require_admin ∅ (Some "") = Raise (HTTPException 401 "Unauthorized") /\
  require_admin {["ADMIN_TOKEN" := "s3cret"]} admin_bearer
  = Raise (HTTPException 401 "Unauthorized") /\
  require_admin {["ADMIN_TOKEN" := "s3cret"]} (Some "Bearer s3cret") = Ok true.
Proof. by vm_compute. Qed.

Example validate_examples :
  PyObjectId_validate "0000000000000000000000fF" = Ok 255%N /\
  PyObjectId_validate "not-an-id" = Raise (ValueError "Invalid ObjectId") /\
  PyObjectId_validate "00000000000000000000000g" = Raise (ValueError "Invalid ObjectId") /\
  ObjectId_str 255%N = "0000000000000000000000ff".
Proof. by vm_compute. Qed.

Example str_replace_examples :
  str_replace "Bearer Bearer x" "Bearer " "" = "x" /\
  str_replace "BeBearer arer x" "Bearer " "" = "Bearer x" /\
  str_replace "aXXXb" "XX" "-" = "a-Xb".
Proof. by vm_compute. Qed.

(** The four boundaries of the tier rule, each on a fresh account. *)
Example add_points_boundaries :
  let tier_after n :=
    response_field "tier" (add_points ∅ admin_bearer "555" {| points := n |} empty_db).1 in
  tier_after 199 = Some (VStr "Bronze") /\
  tier_after 200 = Some (VStr "Silver") /\
  tier_after 499 = Some (VStr "Silver") /\
  tier_after 500 = Some (VStr "Gold") /\
  tier_after (-50) = Some (VStr "Bronze") /\
  response_field "points" (add_points ∅ admin_bearer "555" {| points := -50 |} empty_db).1
  = Some (VInt 0).
Proof. by vm_compute. Qed.

(** [GET orders/track/{id}] answers [id] and [status] and nothing else. *)
Example track_order_keys :
  match (track_order "000000000000000000000001" sample_db).1 with
  | Ok (VDict d) => dom d = {["id"; "status"]} /\ d !! "status" = Some (VStr "Pending")
  | _ => False
  end.
Proof. by vm_compute. Qed.

(** * Further properties of the handlers *)

(** ** Routes that only read *)

Section pure.
Context {A B : Type}.

Lemma pure_ret (a : A) : pure (ret a).
Proof. by intros db. Qed.

Lemma pure_raise (e : exn) : pure (raise (A := A) e).
Proof. by intros db. Qed.

Lemma pure_lift (r : result A) : pure (lift r).
Proof. by intros db. Qed.

Lemma pure_bind (m : M A) (k : A -> M B) :
  pure m -> (forall a, pure (k a)) -> pure (bind m k).
Proof.
  intros Hm Hk db. unfold bind. specialize (Hm db).
  destruct (m db) as [[a|e] db']; simpl in *; [|done].
  subst db'. apply Hk.
Qed.
End pure.

Lemma pure_validated ok : pure (validated ok).
Proof. unfold validated. destruct ok; [apply pure_ret | apply pure_raise]. Qed.

Lemma pure_find_one name q : pure (find_one name q).
Proof. by intros db. Qed.

Lemma pure_find_one_projected name q keys : pure (find_one_projected name q keys).
Proof. by intros db. Qed.

Lemma pure_find name q : pure (find name q).
Proof. by intros db. Qed.

Ltac pure_step :=
  first
    [ apply pure_ret | apply pure_raise | apply pure_lift | apply pure_validated
    | apply pure_find_one | apply pure_find_one_projected | apply pure_find
    | apply pure_bind; [|intros ?]
    | match goal with
      | |- pure (match ?x with _ => _ end) => destruct x
      end ].

(** A read-only route is a pure computation. *)
Lemma read_only_pure env r db :
  read_only r = true -> (handle env r db).2 = db.
Proof.
  intros Hr. revert db. change (pure (handle env r)).
  destruct r as [| | | | | | | | | | | | |limit| |]; try discriminate Hr; simpl.
  - apply pure_ret.
  - unfold get_settings. repeat pure_step.
  - unfold admin_login. repeat pure_step.
  - unfold list_menu. repeat pure_step.
  - unfold list_orders, Depends. repeat pure_step.
  - unfold track_order. repeat pure_step.
  - destruct limit; unfold list_reviews; repeat pure_step.
Qed.

(** The routes that call no write operation leave the store exactly as it
    was, whatever they answer: [GET /], [GET settings], [POST admin/login],
    [GET menu], [GET orders], [GET orders/track/{id}] and [GET reviews].
    ([GET rewards/{phone}] is not one of them: it may insert.) *)
Theorem read_only_routes_do_not_write env r db :
  read_only r = true -> (handle env r db).2 = db.
Proof. exact (read_only_pure env r db). Qed.

Lemma read_only_routes_do_not_write_witness :
  (handle ∅ (GET_orders admin_bearer (Some "Pending")) sample_db).2 = sample_db.
Proof.
  apply (read_only_routes_do_not_write ∅ (GET_orders admin_bearer (Some "Pending"))
           sample_db).
  reflexivity.
Defined.

(** ** One collection per request *)

Section writes_only.
Context {A B : Type} (name : string).

Lemma writes_only_pure (m : M A) : pure m -> writes_only name m.
Proof. intros Hm db n _. by rewrite Hm. Qed.

Lemma writes_only_bind (m : M A) (k : A -> M B) :
  writes_only name m -> (forall a, writes_only name (k a)) ->
  writes_only name (bind m k).
Proof.
  intros Hm Hk db n Hn. unfold bind. specialize (Hm db n Hn).
  destruct (m db) as [[a|e] db']; simpl in *; [|done].
  rewrite <- Hm. by apply Hk.
Qed.
End writes_only.

Lemma writes_only_insert_one name doc : writes_only name (insert_one name doc).
Proof. intros db n Hn. by apply coll_insert_one_ne. Qed.

Lemma writes_only_update_one name q upd : writes_only name (update_one name q upd).
Proof.
  intros db n Hn. unfold update_one.
  destruct (update_first q upd (coll db name)); simpl; [|done].
  by apply coll_set_coll_ne.
Qed.

Lemma writes_only_delete_one name q : writes_only name (delete_one name q).
Proof.
  intros db n Hn. unfold delete_one.
  destruct (delete_first q (coll db name)); simpl; [|done].
  by apply coll_set_coll_ne.
Qed.

Ltac writes_step :=
  first
    [ apply writes_only_insert_one | apply writes_only_update_one
    | apply writes_only_delete_one
    | apply writes_only_pure; solve [repeat pure_step]
    | apply writes_only_bind; [|intros ?]
    | match goal with
      | |- writes_only _ (match ?x with _ => _ end) => destruct x
      end ].

(** The frame of a request: the collections it does not write to. *)
Lemma handle_frame env r db name :
  collection_of r <> Some name ->
  coll (handle env r db).2 name = coll db name.
Proof.
  intros Hname.
  destruct (read_only r) eqn:Hread.
  { by rewrite read_only_pure. }
  revert db.
  destruct r as [| | | | | | | | | | | | |limit| |]; try discriminate Hread;
    simpl in Hname |- *; intros db;
    match goal with
    | |- coll (?m db).2 name = _ =>
        match type of Hname with
        | Some ?c <> _ =>
            assert (writes_only c m) as Hw;
              [ | apply Hw; congruence ]
        end
    end.
  - unfold update_settings, Depends. repeat writes_step.
  - unfold create_menu_item, Depends. repeat writes_step.
  - unfold update_menu_item, Depends. repeat writes_step.
  - unfold delete_menu_item, Depends. repeat writes_step.
  - unfold create_order. repeat writes_step.
  - unfold update_order_status, Depends. repeat writes_step.
  - unfold create_review. repeat writes_step.
  - unfold get_rewards. repeat writes_step.
  - unfold add_points, Depends. repeat writes_step.
Qed.

(** A request changes no collection but the one of its route: settings for
    [PUT settings], the menu for the menu routes, orders for [POST] and
    [PATCH orders], reviews for [POST reviews], reward accounts for the two
    rewards routes, and none at all for the others. *)
Theorem one_collection_per_request env r db name :
  collection_of r <> Some name ->
  coll (handle env r db).2 name = coll db name.
Proof. exact (handle_frame env r db name). Qed.

Lemma one_collection_per_request_witness :
  coll (handle ∅ (POST_rewards_add admin_bearer "555" {| points := 10 |}) sample_db).2
    "order"
  = coll sample_db "order".
Proof.
  apply (one_collection_per_request ∅
           (POST_rewards_add admin_bearer "555" {| points := 10 |}) sample_db "order").
  discriminate.
Defined.

(** ** Update, then look up; delete *)




Lemma delete_one_spec name q db :
  match List.find (matches q) (coll db name) with
  | Some d =>
      exists l1 l2,
        coll db name = l1 ++ d :: l2 /\
        Forall (fun x => matches q x = false) l1 /\
        delete_one name q db = (Ok 1%nat, set_coll db name (l1 ++ l2))
  | None => delete_one name q db = (Ok 0%nat, db)
  end.
Proof.
  destruct (List.find (matches q) (coll db name)) as [d|] eqn:Hfind.
  - destruct (find_split _ _ _ Hfind) as (l1 & l2 & Hc & Hl1 & Hd).
    exists l1, l2. split; [done|]. split; [done|].
    unfold delete_one. by rewrite Hc, (delete_first_split _ _ _ _ Hl1 Hd).
  - unfold delete_one. by rewrite (delete_first_none _ _ Hfind).
Qed.

(** ** The menu routes that take an identifier *)



Lemma delete_menu_item_cases env authorization item_id db :
  delete_menu_item env authorization item_id db
  = match require_admin env authorization with
    | Raise e => (Raise e, db)
    | Ok _ =>
        match PyObjectId_validate item_id with
        | Raise e => (Raise e, db)
        | Ok oid =>
            match List.find (matches (Q_id oid)) (coll db "menuitem") with
            | Some d =>
                (Ok (VDict {["ok" := VBool true]}),
                 (delete_one "menuitem" (Q_id oid) db).2)
            | None => (Raise (HTTPException 404 "Item not found"), db)
            end
        end
    end.
Proof.
  unfold delete_menu_item, Depends, lift.
  destruct (require_admin env authorization) as [ok|e]; [|reflexivity].
  destruct (PyObjectId_validate item_id) as [oid|e]; [|reflexivity].
  pose proof (delete_one_spec "menuitem" (Q_id oid) db) as Hdel.
  unfold bind. cbn [fst snd].
  destruct (List.find (matches (Q_id oid)) (coll db "menuitem")) as [d|].
  - destruct Hdel as (l1 & l2 & _ & _ & ->). reflexivity.
  - rewrite Hdel. reflexivity.
Qed.

(** ** An error answer means nothing was written *)






(** ** Login and order tracking *)

(** [POST admin/login] answers the configured admin token when the
    password is the configured one ([admin123] unless [ADMIN_PASSWORD] is
    set) and 401 [Invalid credentials] otherwise.  The token it answers,
    sent back as [Bearer <token>], passes the admin gate, provided the token
    does not itself contain ["Bearer "]. *)
Theorem admin_login_token env body db :
  let admin_password := getenv env "ADMIN_PASSWORD" "admin123" in
  let token := getenv env "ADMIN_TOKEN" "admin-demo-token" in
  (password body = admin_password ->
   admin_login env body db = (Ok (VDict {["token" := VStr token]}), db) /\
   (occurs "Bearer " token = false ->
    require_admin env (Some ("Bearer " +:+ token)) = Ok true)) /\
  (password body <> admin_password ->
   admin_login env body db = (Raise (HTTPException 401 "Invalid credentials"), db)).
Proof.
  intros admin_password token. unfold admin_login. fold admin_password token.
  split.
  - intros Hpw. rewrite bool_decide_eq_true_2 by done. split; [reflexivity|].
    intros Htoken. apply require_admin_Ok.
    exists ("Bearer " +:+ token). split; [done|]. split; [done|].
    by rewrite str_replace_prefix, str_replace_absent.
  - intros Hpw. by rewrite bool_decide_eq_false_2.
Qed.

Lemma lookup_project_status d :
  fields (project ["status"] d) !! "status" = fields d !! "status".
Proof.
  unfold project. cbn [fields].
  destruct (fields d !! "status") as [st|] eqn:Hst.
  - apply map_lookup_filter_Some. split; [done|]. simpl. apply list_elem_of_singleton.
    done.
  - apply map_lookup_filter_None. left. done.
Qed.

(** [track_order], case by case. *)
Lemma track_order_cases order_id oid db :
  PyObjectId_validate order_id = Ok oid ->
  match stored_order db oid with
  | Some d =>
      match fields d !! "status" with
      | Some st =>
          track_order order_id db
          = (Ok (VDict (<["status" := st]> {["id" := VStr (ObjectId_str oid)]})), db) /\
          dom (<["status" := st]> {["id" := VStr (ObjectId_str oid)]} : dict)
          = {["id"; "status"]}
      | None => track_order order_id db = (Raise (KeyError "status"), db)
      end
  | None =>
      track_order order_id db = (Raise (HTTPException 404 "Order not found"), db)
  end.
Proof.
  intros Hoid. unfold stored_order, track_order, bind, lift. rewrite Hoid.
  unfold find_one_projected.
  destruct (List.find (matches (Q_id oid)) (coll db "order")) as [d|] eqn:Hfind;
    [|reflexivity].
  destruct (find_split _ _ _ Hfind) as (_ & _ & _ & _ & Hd).
  apply bool_decide_eq_true in Hd.
  cbn [fmap option_fmap option_map fst snd].
  rewrite lookup_project_status.
  destruct (fields d !! "status") as [st|]; [|reflexivity].
  cbn [project _id]. rewrite Hd. split; [reflexivity|].
  rewrite dom_insert_L, dom_singleton_L. set_solver.
Qed.

(** [GET orders/track/{id}] for a well-formed identifier: when an order is
    stored under it, the answer holds its identifier under [id] and its
    status under [status] and no other key; an order stored without a
    status makes the handler fail on the missing key; no order under the
    identifier is a 404.  The store is untouched in all three cases. *)
Theorem track_order_answer order_id oid db :
  PyObjectId_validate order_id = Ok oid ->
  match stored_order db oid with
  | Some d =>
      match fields d !! "status" with
      | Some st =>
          track_order order_id db
          = (Ok (VDict (<["status" := st]> {["id" := VStr (ObjectId_str oid)]})), db) /\
          dom (<["status" := st]> {["id" := VStr (ObjectId_str oid)]} : dict)
          = {["id"; "status"]}
      | None => track_order order_id db = (Raise (KeyError "status"), db)
      end
  | None =>
      track_order order_id db = (Raise (HTTPException 404 "Order not found"), db)
  end.
Proof. exact (track_order_cases order_id oid db). Qed.

Lemma track_order_answer_witness :
  match stored_order sample_db 1%N with
  | Some d =>
      match fields d !! "status" with
      | Some st =>
          track_order "000000000000000000000001" sample_db
          = (Ok (VDict (<["status" := st]> {["id" := VStr (ObjectId_str 1%N)]})),
             sample_db) /\
          dom (<["status" := st]> {["id" := VStr (ObjectId_str 1%N)]} : dict)
          = {["id"; "status"]}
      | None =>
          track_order "000000000000000000000001" sample_db
          = (Raise (KeyError "status"), sample_db)
      end
  | None =>
      track_order "000000000000000000000001" sample_db
      = (Raise (HTTPException 404 "Order not found"), sample_db)
  end.
Proof.
  apply (track_order_answer "000000000000000000000001" 1%N sample_db). reflexivity.
Defined.

(** ** Saving the settings *)

(** [PUT settings], case by case: the gate, the schema, then update of the
    first stored document or insertion of a new one. *)
Lemma update_settings_cases env authorization payload db :
  update_settings env authorization payload db
  = match require_admin env authorization with
    | Raise e => (Raise e, db)
    | Ok _ =>
        if RestaurantSettings.validate payload
        then
          let data := RestaurantSettings.model_dump payload in
          match coll db "restaurantsettings" with
          | d0 :: c =>
              (Ok (oid_str (Some (apply_set data d0))),
               set_coll db "restaurantsettings" (apply_set data d0 :: c))
          | [] =>
              (Ok (oid_str (Some {| _id := next_id db; fields := data |})),
               (insert_one "restaurantsettings" data db).2)
          end
        else (Raise RequestValidationError, db)
    end.
Proof.
  unfold update_settings, Depends, lift, validated.
  destruct (require_admin env authorization) as [ok|e]; [|reflexivity].
  destruct (RestaurantSettings.validate payload); [|reflexivity].
  unfold bind at 1 2. cbn [ret fst snd]. unfold bind at 1, find_one at 1.
  destruct (coll db "restaurantsettings") as [|d0 c] eqn:Hc; cbn [List.find matches].
  - unfold bind, insert_one, find_one, ret. cbn [fst snd].
    unfold coll at 1. cbn [colls]. rewrite lookup_insert_eq, Hc.
    cbn [app List.find matches _id]. by rewrite bool_decide_eq_true_2.
  - unfold bind, update_one, find_one, ret. rewrite Hc.
    cbn [update_first matches]. rewrite bool_decide_eq_true_2 by done.
    rewrite coll_set_coll_eq. cbn [List.find matches apply_set _id].
    by rewrite bool_decide_eq_true_2.
Qed.



(** The settings collection never grows beyond one document: a request
    that finds at most one settings document leaves at most one. *)
Theorem settings_stay_single env r db :
  (length (coll db "restaurantsettings") <= 1)%nat ->
  (length (coll (handle env r db).2 "restaurantsettings") <= 1)%nat.
Proof.
  intros Hlen.
  destruct (decide (collection_of r = Some "restaurantsettings")) as [Hr|Hr].
  - destruct r; try discriminate Hr. simpl.
    rewrite update_settings_cases.
    destruct (require_admin env authorization) as [ok|e]; [|done].
    destruct (RestaurantSettings.validate payload); [|done]. cbv zeta.
    destruct (coll db "restaurantsettings") as [|d0 c] eqn:Hc; cbn [snd].
    + by rewrite coll_insert_one_eq, Hc.
    + by rewrite coll_set_coll_eq.
  - by rewrite handle_frame.
Qed.

Lemma settings_stay_single_witness :
  (length (coll (handle ∅ (PUT_settings admin_bearer RestaurantSettings.default)
                   (run ∅ [PUT_settings admin_bearer RestaurantSettings.default] empty_db)).2
             "restaurantsettings") <= 1)%nat.
Proof.
  apply (settings_stay_single ∅ (PUT_settings admin_bearer RestaurantSettings.default)).
  vm_compute. lia.
Defined.

(** ** The menu *)

Lemma title_le_total x y : title_le x y = false -> title_le y x = true.
Proof.
  unfold title_le. destruct (title_key x) as [s|], (title_key y) as [t|]; try done.
  intros Hst. destruct (String.leb_total s t) as [H|H]; [congruence|done].
Qed.

Section insertion_sort.
Context {A : Type} (le : A -> A -> bool).
Hypothesis le_total : forall x y, le x y = false -> le y x = true.

Lemma insert_sorted_HdRel a x l :
  le a x = true -> HdRel (fun x y => le x y = true) a l ->
  HdRel (fun x y => le x y = true) a (insert_sorted le x l).
Proof.
  intros Hax Hal. destruct l as [|y l]; simpl; [by constructor|].
  destruct (le x y); constructor; [done|]. by inversion Hal.
Qed.

Lemma insert_sorted_Sorted x l :
  Sorted (fun x y => le x y = true) l ->
  Sorted (fun x y => le x y = true) (insert_sorted le x l).
Proof.
  induction 1 as [|y l Hl IH Hy]; simpl; [by repeat constructor|].
  destruct (le x y) eqn:Hxy.
  - constructor; [by constructor|]. by constructor.
  - constructor; [done|]. apply insert_sorted_HdRel; [|done]. by apply le_total.
Qed.

Lemma sort_by_Sorted l : Sorted (fun x y => le x y = true) (sort_by le l).
Proof.
  induction l as [|x l IH]; simpl; [constructor|]. by apply insert_sorted_Sorted.
Qed.
End insertion_sort.

(** [GET menu] answers the items that match the filter (all of them
    without a category), each once, in ascending order of title; it writes
    nothing. *)
Theorem list_menu_sorted category db :
  exists l,
    list_menu category db = (Ok (oid_str_all l), db) /\
    sorted_by_title l /\
    l ≡ₚ List.filter (matches (filter_query "category" category)) (coll db "menuitem").
Proof.
  exists (cursor_sort By_title_asc
            (List.filter (matches (filter_query "category" category))
               (coll db "menuitem"))).
  split; [reflexivity|]. split.
  - apply sort_by_Sorted, title_le_total.
  - apply cursor_sort_perm.
Qed.



Lemma keeps_insert_item item :
  keeps (insert_one "menuitem" (MenuItem.model_dump item)).
Proof. apply keeps_insert_one; [reflexivity|done|done]. Qed.






(** In a collection with growing identifiers, no document after [a] has the
    identifier of [a]. *)
Lemma sorted_suffix_other_ids l1 a l2 :
  StronglySorted id_lt (l1 ++ a :: l2) ->
  Forall (fun x => matches (Q_id (_id a)) x = false) l2.
Proof.
  intros (_ & _ & Ha)%StronglySorted_app.
  apply StronglySorted_inv in Ha as [_ Ha].
  eapply Forall_impl; [exact Ha|]. intros x Hx. unfold id_lt in Hx.
  simpl. apply bool_decide_eq_false_2. intros Heq. rewrite Heq in Hx. lia.
Qed.

(** [DELETE menu/{id}] by an admin, with a well-formed identifier, on a
    well-formed store.  When an item is stored under the identifier, it is
    removed and only it, the answer is [{"ok": true}], and nothing is stored
    under the identifier any more, so that deleting again answers 404.
    When none is stored under it, the answer is 404 and the store is as
    before. *)
Theorem delete_menu_item_removes env authorization item_id oid db :
  db_wf db ->
  require_admin env authorization = Ok true ->
  PyObjectId_validate item_id = Ok oid ->
  match List.find (matches (Q_id oid)) (coll db "menuitem") with
  | Some d =>
      exists l1 l2,
        coll db "menuitem" = l1 ++ d :: l2 /\
        delete_menu_item env authorization item_id db
        = (Ok (VDict {["ok" := VBool true]}), set_coll db "menuitem" (l1 ++ l2)) /\
        List.find (matches (Q_id oid)) (l1 ++ l2) = None /\
        delete_menu_item env authorization item_id
          (delete_menu_item env authorization item_id db).2
        = (Raise (HTTPException 404 "Item not found"),
           (delete_menu_item env authorization item_id db).2)
  | None =>
      delete_menu_item env authorization item_id db
      = (Raise (HTTPException 404 "Item not found"), db)
  end.
Proof.
  intros Hwf Hadm Hoid.
  rewrite delete_menu_item_cases, Hadm, Hoid.
  pose proof (delete_one_spec "menuitem" (Q_id oid) db) as Hdel.
  destruct (List.find (matches (Q_id oid)) (coll db "menuitem")) as [d|] eqn:Hfind;
    [|reflexivity].
  destruct Hdel as (l1 & l2 & Hc & Hl1 & Hdel).
  exists l1, l2. split; [exact Hc|]. rewrite Hdel. cbn [snd]. split; [reflexivity|].
  assert (_id d = oid) as Hid.
  { destruct (find_split _ _ _ Hfind) as (_ & _ & _ & _ & Hd).
    by apply bool_decide_eq_true in Hd. }
  assert (List.find (matches (Q_id oid)) (l1 ++ l2) = None) as Hgone.
  { apply find_all_none, Forall_app. split; [exact Hl1|].
    rewrite <- Hid. apply (sorted_suffix_other_ids l1 d l2).
    rewrite <- Hc. apply (coll_sorted _ _ (wf_colls _ Hwf "menuitem")). }
  split; [exact Hgone|].
  rewrite delete_menu_item_cases, Hadm, Hoid, coll_set_coll_eq, Hgone.
  reflexivity.
Qed.

Lemma delete_menu_item_removes_witness :
  match List.find (matches (Q_id 0%N)) (coll sample_db "menuitem") with
  | Some d =>
      exists l1 l2,
        coll sample_db "menuitem" = l1 ++ d :: l2 /\
        delete_menu_item ∅ admin_bearer "000000000000000000000000" sample_db
        = (Ok (VDict {["ok" := VBool true]}), set_coll sample_db "menuitem" (l1 ++ l2)) /\
        List.find (matches (Q_id 0%N)) (l1 ++ l2) = None /\
        delete_menu_item ∅ admin_bearer "000000000000000000000000"
          (delete_menu_item ∅ admin_bearer "000000000000000000000000" sample_db).2
        = (Raise (HTTPException 404 "Item not found"),
           (delete_menu_item ∅ admin_bearer "000000000000000000000000" sample_db).2)
  | None =>
      delete_menu_item ∅ admin_bearer "000000000000000000000000" sample_db
      = (Raise (HTTPException 404 "Item not found"), sample_db)
  end.
Proof.
  apply (delete_menu_item_removes ∅ admin_bearer "000000000000000000000000" 0%N
           sample_db).
  - apply (run_keeps ∅ [POST_menu admin_bearer sample_item; POST_orders sample_order]).
    apply db_wf_empty.
  - reflexivity.
  - reflexivity.
Defined.

(** ** Identifiers as strings *)

Lemma hex_value_hex_char n : (n < 16)%N -> hex_value (hex_char n) = Some n.
Proof.
  intros Hn. rewrite <- (N2Nat.id n). remember (N.to_nat n) as k eqn:Hk.
  assert (k < 16)%nat as Hlt by lia. clear Hk Hn.
  do 16 (destruct k as [|k]; [reflexivity|]). lia.
Qed.

Lemma hex_parse_app acc s1 s2 :
  hex_parse acc (s1 +:+ s2) = hex_parse acc s1 ≫= fun a => hex_parse a s2.
Proof.
  revert acc. induction s1 as [|c s1 IH]; intros acc; simpl; [done|].
  destruct (hex_value c); [apply IH|done].
Qed.

Lemma hex_parse_digits k n acc :
  hex_parse acc (hex_digits k n) = Some (acc * 16 ^ N.of_nat k + n mod 16 ^ N.of_nat k)%N.
Proof.
  revert n acc. induction k as [|k IH]; intros n acc.
  - simpl. f_equal. rewrite N.mod_1_r. lia.
  - cbn [hex_digits]. rewrite hex_parse_app, IH. cbn [mbind option_bind hex_parse].
    rewrite hex_value_hex_char by (apply N.mod_lt; lia).
    f_equal. rewrite Nat2N.inj_succ, N.pow_succ_r'.
    rewrite (N.Div0.mod_mul_r n 16 (16 ^ N.of_nat k)). lia.
Qed.

Lemma string_length_app (s1 s2 : string) :
  String.length (s1 +:+ s2) = (String.length s1 + String.length s2)%nat.
Proof. induction s1 as [|c s1 IH]; simpl; [done|]. by rewrite IH. Qed.

Lemma length_hex_digits k n : String.length (hex_digits k n) = k.
Proof.
  revert n. induction k as [|k IH]; intros n; [done|].
  cbn [hex_digits]. rewrite string_length_app, IH. simpl. lia.
Qed.

(** Parsing the 24 digits of an identifier gives it back. *)
Lemma validate_ObjectId_str o :
  (o < 2 ^ 96)%N -> PyObjectId_validate (ObjectId_str o) = Ok o.
Proof.
  intros Ho. unfold PyObjectId_validate, ObjectId_is_valid, ObjectId_str.
  rewrite length_hex_digits, hex_parse_digits.
  change (16 ^ N.of_nat 24)%N with (2 ^ 96)%N.
  rewrite N.mul_0_l, N.add_0_l, N.mod_small by done.
  rewrite bool_decide_eq_true_2 by eauto. reflexivity.
Qed.

(** The string of an identifier is accepted back by [PyObjectId.validate]
    and gives the same identifier (an identifier has 12 bytes). *)
Theorem validate_str_round_trip o :
  (o < 2 ^ 96)%N -> PyObjectId_validate (ObjectId_str o) = Ok o.
Proof. exact (validate_ObjectId_str o). Qed.

Lemma validate_str_round_trip_witness :
  PyObjectId_validate (ObjectId_str 48879%N) = Ok 48879%N.
Proof. apply (validate_str_round_trip 48879%N). reflexivity. Defined.

Lemma model_dump_order_status order :
  Order.model_dump order !! "status" = Some (VStr (Order.status order)).
Proof. reflexivity. Qed.



(** ** Listing orders *)





(** ** One account per phone number *)

Lemma update_first_phones q upd c c' :
  upd !! "customer_phone" = None ->
  update_first q upd c = Some c' -> account_phone <$> c' = account_phone <$> c.
Proof.
  intros Hupd. revert c'. induction c as [|x c IH]; simpl; intros c'; [discriminate|].
  destruct (matches q x).
  - intros [= <-]. simpl. f_equal. unfold account_phone. cbn [apply_set fields].
    by rewrite lookup_union_r.
  - destruct (update_first q upd c) as [c''|]; [|discriminate].
    intros [= <-]. simpl. f_equal. auto.
Qed.

Section keeps_phones.
Context {A B : Type}.

Lemma keeps_phones_pure (m : M A) : pure m -> keeps_phones m.
Proof. intros Hm db _ Hdb. by rewrite Hm. Qed.

Lemma keeps_phones_bind (m : M A) (k : A -> M B) :
  keeps m -> keeps_phones m -> (forall a, keeps_phones (k a)) ->
  keeps_phones (bind m k).
Proof.
  intros Hwf Hm Hk db Hdb Hnd. unfold bind.
  specialize (Hwf db Hdb). specialize (Hm db Hdb Hnd).
  destruct (m db) as [[a|e] db']; simpl in *; [|done]. by apply Hk.
Qed.
End keeps_phones.

Lemma keeps_phones_update_one q upd :
  upd !! "customer_phone" = None ->
  keeps_phones (update_one "rewardaccount" q upd).
Proof.
  intros Hupd db _ Hnd. unfold update_one.
  destruct (update_first q upd (coll db "rewardaccount")) as [c'|] eqn:Hu; [|done].
  unfold phones. cbn [snd]. rewrite coll_set_coll_eq.
  by rewrite (update_first_phones _ _ _ _ Hupd Hu).
Qed.

(** An account is inserted only for a phone number no stored account has. *)
Lemma keeps_phones_get_or_create phone : keeps_phones (get_or_create_account phone).
Proof.
  intros db Hwf Hnd.
  destruct (get_or_create_account_spec phone db)
    as (acc & db1 & l1 & l2 & Hget & _ & _ & _ & Hcase).
  rewrite Hget. cbn [snd].
  destruct (stored_account db phone) as [a|] eqn:Hst.
  - by destruct Hcase as [_ ->].
  - destruct Hcase as (_ & -> & _). unfold phones in *.
    rewrite coll_insert_one_eq, fmap_app. apply NoDup_app. split; [done|]. split.
    + intros x Hx ->%list_elem_of_singleton.
      apply list_elem_of_fmap in Hx as (d & Hd & Hin).
      pose proof (wf_accounts _ Hwf) as Hok. rewrite Forall_forall in Hok.
      destruct (Hok d Hin) as (ph & p & Hph & _).
      apply find_none_all in Hst. rewrite Forall_forall in Hst.
      specialize (Hst d Hin). unfold matches in Hst. rewrite Hph in Hst.
      simpl in Hst. apply bool_decide_eq_false in Hst.
      unfold account_phone in Hd. rewrite Hph in Hd. cbn [fields] in Hd.
      change (new_account phone !! "customer_phone") with (Some (VStr phone)) in Hd.
      congruence.
    + apply NoDup_singleton.
Qed.

Lemma keeps_phones_add_points env authorization phone body :
  keeps_phones (add_points env authorization phone body).
Proof.
  rewrite add_points_eq. unfold Depends.
  apply keeps_phones_bind; [keeps_step|apply keeps_phones_pure, pure_lift|intros _].
  apply keeps_phones_bind;
    [apply keeps_get_or_create_account|apply keeps_phones_get_or_create|intros acc].
  apply keeps_phones_bind; [keeps_step|apply keeps_phones_pure, pure_lift|intros sum].
  rewrite tier_rule_code.
  apply keeps_phones_bind.
  - apply keeps_update_one; [reflexivity| |done].
    intros _ d Hd. apply account_ok_set_points; [lia|done].
  - by apply keeps_phones_update_one.
  - intros _. apply keeps_phones_pure. repeat pure_step.
Qed.

Lemma handle_keeps_phones env r : keeps_phones (handle env r).
Proof.
  intros db Hwf Hnd.
  destruct (decide (collection_of r = Some "rewardaccount")) as [Hr|Hr].
  - destruct r; try discriminate Hr; simpl.
    + rewrite get_rewards_eq.
      revert db Hwf Hnd. apply keeps_phones_bind.
      * apply keeps_get_or_create_account.
      * apply keeps_phones_get_or_create.
      * intros acc. apply keeps_phones_pure, pure_ret.
    + by apply keeps_phones_add_points.
  - unfold phones. by rewrite handle_frame.
Qed.

Lemma reachable_run env rs : reachable env (run env rs empty_db).
Proof.
  assert (forall db, reachable env db -> reachable env (run env rs db)) as H.
  { induction rs as [|r rs IH]; simpl; intros db Hdb; [done|].
    apply IH. by constructor. }
  apply H. constructor.
Qed.

(** In every store the API builds from the empty one, no two reward
    accounts are filed under the same phone number, and every account has
    one. *)
Theorem one_account_per_phone env db :
  reachable env db ->
  NoDup (phones db) /\
  Forall (fun d => exists s, account_phone d = Some s) (coll db "rewardaccount").
Proof.
  intros Hreach. split.
  - induction Hreach as [|db r Hreach IH]; [constructor|].
    apply handle_keeps_phones; [by eapply reachable_wf|done].
  - eapply Forall_impl; [apply (wf_accounts _ (reachable_wf _ _ Hreach))|].
    intros d (ph & p & Hph & _). exists ph. unfold account_phone. by rewrite Hph.
Qed.

Lemma one_account_per_phone_witness :
  let db :=
    run ∅ [GET_rewards "555"; POST_rewards_add admin_bearer "777" {| points := 10 |};
           GET_rewards "777"; POST_rewards_add admin_bearer "555" {| points := 3 |}]
      empty_db in
  NoDup (phones db) /\
  Forall (fun d => exists s, account_phone d = Some s) (coll db "rewardaccount").
Proof.
  intros db. apply (one_account_per_phone ∅ db). apply reachable_run.
Defined.

(** The run of the witness above does hold two accounts. *)
Example two_accounts :
  phones
    (run ∅ [GET_rewards "555"; POST_rewards_add admin_bearer "777" {| points := 10 |};
            GET_rewards "777"; POST_rewards_add admin_bearer "555" {| points := 3 |}]
       empty_db)
  = [Some "555"; Some "777"].
Proof. by vm_compute. Qed.

(** ** Adding points, again and beside *)







Lemma find_skip_nomatch {A} (p : A -> bool) l1 x l2 :
  p x = false -> List.find p (l1 ++ x :: l2) = List.find p (l1 ++ l2).
Proof.
  intros Hx. induction l1 as [|y l1 IH]; simpl; [by rewrite Hx|].
  by rewrite IH.
Qed.

Lemma account_matches_own_phone d phone phone' :
  account_ok d -> matches (Q_field "customer_phone" phone) d = true ->
  phone' <> phone -> matches (Q_field "customer_phone" phone') d = false.
Proof.
  intros (ph & p & Hph & _). unfold matches. rewrite Hph. simpl.
  intros ->%bool_decide_eq_true Hne. by apply bool_decide_eq_false_2.
Qed.

(** Where [add_points] leaves the collection: the account of [phone],
    rewritten in place. *)
Lemma add_points_store env authorization phone body db :
  db_wf db -> require_admin env authorization = Ok true ->
  exists acc db1 l1 l2 upd,
    get_or_create_account phone db = (Ok acc, db1) /\
    coll db1 "rewardaccount" = l1 ++ acc :: l2 /\
    account_ok acc /\
    matches (Q_field "customer_phone" phone) acc = true /\
    upd !! "customer_phone" = None /\
    coll (add_points env authorization phone body db).2 "rewardaccount"
    = l1 ++ apply_set upd acc :: l2.
Proof.
  intros Hwf Hadm.
  destruct (get_or_create_account_spec phone db)
    as (acc & db1 & l1 & l2 & Hget & Hc & Hl1 & Hacc & Hcase).
  assert (db_wf db1) as Hwf1.
  { pose proof (keeps_get_or_create_account phone db Hwf) as H.
    by rewrite Hget in H. }
  assert (account_ok acc) as Hok.
  { pose proof (wf_accounts _ Hwf1) as H. rewrite Hc in H.
    apply Forall_app in H as [_ H]. by inversion H. }
  destruct Hok as (ph & p & Hph & Hp & Hp0 & Ht).
  assert (Forall (fun x => matches (Q_id (_id acc)) x = false) l1) as Hid.
  { eapply sorted_prefix_other_ids. rewrite <- Hc. apply (wf_colls _ Hwf1). }
  set (new_points := Z.max 0 (p + points body)).
  exists acc, db1, l1, l2,
    (<["tier" := VStr (tier_rule new_points)]> {["points" := VInt new_points]}).
  split; [exact Hget|]. split; [exact Hc|].
  split; [by exists ph, p|]. split; [exact Hacc|]. split; [reflexivity|].
  rewrite add_points_eq. unfold bind, Depends, lift. rewrite Hadm, Hget.
  unfold points_plus. rewrite Hp, tier_rule_code. fold new_points.
  unfold update_one. rewrite Hc.
  rewrite (update_first_split _ _ _ _ _ Hid (matches_id_refl acc)).
  unfold find_one. rewrite coll_set_coll_eq.
  rewrite (find_skip _ _ _ _ Hid (matches_id_self acc _)).
  cbn [snd ret]. by rewrite coll_set_coll_eq.
Qed.

(** [POST rewards/{phone}/add] by an admin on a well-formed store leaves
    the account of every other phone number as it was. *)
Theorem add_points_other_accounts env authorization phone body db other :
  db_wf db -> require_admin env authorization = Ok true -> other <> phone ->
  stored_account (add_points env authorization phone body db).2 other
  = stored_account db other.
Proof.
  intros Hwf Hadm Hother.
  destruct (add_points_store env authorization phone body db Hwf Hadm)
    as (acc & db1 & l1 & l2 & upd & Hget & Hc & Hok & Hacc & Hupd & Hafter).
  pose proof (account_matches_own_phone acc phone other Hok Hacc Hother) as Hno.
  assert (matches (Q_field "customer_phone" other) (apply_set upd acc) = false) as Hno'.
  { unfold matches in Hno |- *. cbn [apply_set fields].
    by rewrite lookup_union_r. }
  unfold stored_account. rewrite Hafter, (find_skip_nomatch _ _ _ _ Hno').
  rewrite <- (find_skip_nomatch _ _ _ _ Hno), <- Hc.
  destruct (get_or_create_account_spec phone db)
    as (acc' & db1' & l1' & l2' & Hget' & Hc' & _ & _ & Hcase).
  rewrite Hget in Hget'. injection Hget' as <- <-.
  destruct (stored_account db phone) as [a|].
  - by destruct Hcase as [_ ->].
  - destruct Hcase as (-> & -> & _). rewrite coll_insert_one_eq.
    rewrite (find_skip_nomatch _ _ _ [] Hno). by rewrite app_nil_r.
Qed.

Lemma add_points_other_accounts_witness :
  let db := run ∅ [GET_rewards "777"] empty_db in
  stored_account (add_points ∅ admin_bearer "555" {| points := 10 |} db).2 "777"
  = stored_account db "777".
Proof.
  intros db.
  apply (add_points_other_accounts ∅ admin_bearer "555" {| points := 10 |} db "777").
  - apply (run_keeps ∅ [GET_rewards "777"]). apply db_wf_empty.
  - reflexivity.
  - discriminate.
Defined.

(** ** Bodies that fail their schema *)


